(** * rag_stream: a shallow embedding of the retrieval-and-scoring core

    The development follows the Python sources of the repository:
    - [analysis/flow_comparison.py]  ([calc_match], [rag_extraction]),
    - [analysis/hallucination.py]    ([calculate_hallucination_score]),
    - [core/chunking.py]             ([chunk_text] and its two algorithms),
    - [analysis/benchmarking.py]     ([run_benchmark_test]),
    - [core/extraction.py]           ([extract_all_fields]),
    - [core/retrieval.py]            ([retrieve]),
    - [core/index_persistence.py]    ([get_index_path], [save_index]).

    Python values are modelled as the code has them: a [str] is a list of
    code points, an [int] is a [Z], a list is a [list], a set is a [gset],
    the file system is a finite map from paths to contents.  Calls that
    leave the repository (the tokenizer, the sentence splitter, the language
    model, the retriever, the embedding, the index search) are parameters
    of the sections that use them. *)

From Stdlib Require Import ZArith QArith Qminmax Ascii String List.
From Stdlib Require Import Sorted Lia Lqa DecimalString.
From stdpp Require Import base list strings gmap.
Import ListNotations.

#[local] Set Warnings "-register-all".

#[local] Open Scope Z_scope.

(** ** Part I.  The program *)

(** *** Python strings *)

Module PyStr.

(** A Python [str] restricted to the code points 0..255. *)
Definition str : Type := list ascii.

Definition py (s : string) : str := list_ascii_of_string s.

Definition code (c : ascii) : N := N_of_ascii c.

(** [c.isspace()]: the white space that [str.strip()] and [str.split()]
    remove.  Below 256 these are TAB..CR, FS..US, SPACE, NEL and NBSP. *)
Definition isspace (c : ascii) : bool :=
  let n := code c in
  ((9 <=? n) && (n <=? 13) || (28 <=? n) && (n <=? 32)
   || (n =? 133) || (n =? 160))%N.

(** [c.lower()]: A..Z and the Latin-1 capitals (all of 192..222 but the
    multiplication sign 215) move up by 32. *)
Definition lower_char (c : ascii) : ascii :=
  let n := code c in
  if ((65 <=? n) && (n <=? 90)
      || (192 <=? n) && (n <=? 222) && negb (n =? 215))%N
  then ascii_of_N (n + 32) else c.

Definition lower (s : str) : str := map lower_char s.

(** Truth value of a string: [if s:]. *)
Definition truthy (s : str) : bool :=
  match s with [] => false | _ :: _ => true end.

Fixpoint lstrip (s : str) : str :=
  match s with
  | [] => []
  | c :: s' => if isspace c then lstrip s' else s
  end.

Definition rstrip (s : str) : str := rev (lstrip (rev s)).

(** [s.strip()] *)
Definition strip (s : str) : str := rstrip (lstrip s).

(** [s.startswith(p)] *)
Fixpoint startswith (p s : str) : bool :=
  match p, s with
  | [], _ => true
  | _ :: _, [] => false
  | a :: p', b :: s' => bool_decide (a = b) && startswith p' s'
  end.

(** [sub in s] *)
Fixpoint contains (sub s : str) : bool :=
  startswith sub s
  || match s with
     | [] => false
     | _ :: s' => contains sub s'
     end.

(** [s.split()]: the maximal runs of characters that are not white
    space, from left to right. *)
Fixpoint split_ws (s : str) : list str :=
  match s with
  | [] => []
  | c :: s' =>
      if isspace c then split_ws s'
      else match s' with
           | [] => [[c]]
           | d :: _ =>
               if isspace d then [c] :: split_ws s'
               else match split_ws s' with
                    | w :: ws => (c :: w) :: ws
                    | [] => [[c]]
                    end
           end
  end.

(** [s.split(sep)] for a non-empty [sep]: cut at each occurrence of [sep],
    found from left to right without overlap.  [skip] counts the
    characters of a separator that was just matched and is being passed;
    [cur] holds the current piece, last character first. *)
Fixpoint split_go (sep : str) (skip : nat) (cur : str) (s : str)
  : list str :=
  match s with
  | [] => [rev cur]
  | c :: s' =>
      match skip with
      | S k => split_go sep k cur s'
      | O =>
          if startswith sep s
          then rev cur :: split_go sep (length sep - 1) [] s'
          else split_go sep 0 (c :: cur) s'
      end
  end.

Definition split_on (sep s : str) : list str := split_go sep 0 [] s.

(** [sep.join(parts)] *)
Fixpoint join (sep : str) (parts : list str) : str :=
  match parts with
  | [] => []
  | [p] => p
  | p :: ps => p ++ sep ++ join sep ps
  end.

(** [len(s)] as a Python integer. *)
Definition len {A} (l : list A) : Z := Z.of_nat (length l).

(** Python's slice [l[i:j]] with step 1: a negative index counts from
    the end, and both ends are clamped to the list. *)
Definition clamp_index (n i : Z) : Z :=
  let i' := if i <? 0 then i + n else i in
  Z.max 0 (Z.min n i').

Definition slice {A} (l : list A) (i j : Z) : list A :=
  let n := len l in
  let lo := clamp_index n i in
  let hi := clamp_index n j in
  take (Z.to_nat (hi - lo)) (drop (Z.to_nat lo) l).

(** [l[:j]] *)
Definition slice_to {A} (l : list A) (j : Z) : list A := slice l 0 j.

(** [range(0, stop, step)] for a positive [step]. *)
Fixpoint range_up (fuel : nat) (i stop step : Z) : list Z :=
  match fuel with
  | O => []
  | S f => if i <? stop then i :: range_up f (i + step) stop step else []
  end.

Definition range0 (stop step : Z) : list Z :=
  range_up (Z.to_nat stop) 0 stop step.

End PyStr.

Import PyStr.

(** *** The scorer: [calc_match] and [calculate_hallucination_score] *)

Module Scorer.

(** [calc_match], the local function of [compare_outputs]
    (analysis/flow_comparison.py). *)
Definition calc_match (extracted master : str) : str * Z :=
  if negb (truthy master) || bool_decide (lower master = py "n/a")
  then (py "N/A", 0)
  else
    let extracted_lower := strip (lower extracted) in
    let master_lower := strip (lower master) in
    if bool_decide (extracted_lower = master_lower)
    then (py "exact", 100)
    else if contains master_lower extracted_lower
            || contains extracted_lower master_lower
    then (py "partial", 70)
    else if existsb (fun word => contains word extracted_lower)
              (split_ws master_lower)
    then (py "fuzzy", 40)
    else (py "mismatch", 0).

(** [x > y] on the quotients the score compares. *)
Definition Qgtb (x y : Q) : bool := negb (Qle_bool x y).

(** [calculate_hallucination_score] (analysis/hallucination.py).  The
    quotient [overlap] is computed exactly: its numerator and denominator
    are word counts, and for counts below 2^50 the comparison of the
    double-precision quotient with 0.8, 0.5 and 0.2 has the same outcome
    as the comparison of the exact quotient with 4/5, 1/2 and 1/5. *)
Definition calculate_hallucination_score
    (extracted_value master_value context_text : str) : Z :=
  if bool_decide (extracted_value ∈ [py "N/A"; py "ERROR"; py ""])
  then 0
  else
    let extracted_lower := strip (lower extracted_value) in
    let master_lower :=
      if truthy master_value then strip (lower master_value) else py "" in
    if bool_decide (extracted_lower = master_lower) then 0
    else if contains extracted_lower (lower context_text) then 10
    else
      let extracted_words : gset str :=
        list_to_set (split_ws extracted_lower) in
      let context_words : gset str :=
        list_to_set (split_ws (lower context_text)) in
      let overlap : Q :=
        if bool_decide (extracted_words = ∅) then 0%Q
        else (inject_Z (Z.of_nat (size (extracted_words ∩ context_words)))
              / inject_Z (Z.of_nat (size extracted_words)))%Q in
      if Qgtb overlap (8 # 10) then 20
      else if Qgtb overlap (5 # 10) then 40
      else if Qgtb overlap (2 # 10) then 60
      else 80.

End Scorer.

(** *** The chunker (core/chunking.py) *)

Module Chunking.

(** The loop of the token mode of [chunk_text_recursive]: the start index
    [i] of the next window and the chunks appended so far. *)
Record loop_state : Type := LoopState { i : Z; chunks : list str }.

Section Tokenizer.

(** The tokenizer [tiktoken.get_encoding(TIKTOKEN_ENCODING)] and NLTK's
    [sent_tokenize]. *)
Context {token : Type}.
Variable encode : str -> list token.
Variable decode : list token -> str.
Variable sent_tokenize : str -> list str.

(** The body of [for s in sents] in the sentence mode of the sliding
    window: the state is [(chunks, buf, word_count)]. *)
Definition sentence_step (size : Z)
    (st : list str * list str * Z) (s : str) : list str * list str * Z :=
  let '(chunks, buf, word_count) := st in
  let buf := buf ++ [s] in
  let word_count := word_count + len (split_ws s) in
  if word_count >=? size
  then (chunks ++ [join (py " ") buf], [], 0)
  else (chunks, buf, word_count).

(** The body of [for i in range(0, len(tokens), step)]. *)
Definition window_step (tokens : list token) (size : Z)
    (chunks : list str) (i : Z) : list str :=
  let part := slice tokens i (i + size) in
  match part with
  | [] => chunks
  | _ :: _ => chunks ++ [decode part]
  end.

Definition chunk_text_sliding_window
    (text mode : str) (size overlap : Z) : list str :=
  if negb (truthy (strip text)) then []
  else if bool_decide (mode = py "paragraph") then
    map strip
      (filter (fun p => truthy (strip p) = true)
              (split_on [ascii_of_N 10; ascii_of_N 10] text))
  else if bool_decide (mode = py "sentence") then
    let sents := sent_tokenize text in
    let '(chunks, buf, _) :=
      fold_left (sentence_step size) sents ([], [], 0) in
    match buf with
    | [] => chunks
    | _ :: _ => chunks ++ [join (py " ") buf]
    end
  else
    let tokens := encode text in
    let step := Z.max (size - overlap) 1 in
    fold_left (window_step tokens size) (range0 (len tokens) step) [].

(** [separators = ["\n\n", "\n", ". ", " ", ""]] *)
Definition separators : list str :=
  [ [ascii_of_N 10; ascii_of_N 10]; [ascii_of_N 10]; py ". "; py " ";
    py "" ].

(** The local function [split_text]; [size] is the variable of the
    enclosing call. *)
Fixpoint split_text (size : Z) (text : str) (separators : list str)
  : list str :=
  match separators with
  | [] => [text]
  | separator :: rest =>
      if bool_decide (separator = py "") then map (fun c => [c]) text
      else
        let splits := split_on separator text in
        fold_left
          (fun result split =>
             if len split >? size
             then result ++ split_text size split rest
             else if truthy (strip split) then result ++ [split]
             else result)
          splits []
  end.

(** The loop [while i < len(tokens)] of the token mode. *)
Definition token_loop_cond (tokens : list token) (st : loop_state)
  : bool :=
  i st <? len tokens.

Definition token_loop_body (tokens : list token) (size overlap : Z)
    (st : loop_state) : loop_state :=
  let end_ := Z.min (i st + size) (len tokens) in
  let chunk_tokens := slice tokens (i st) end_ in
  {| chunks := chunks st ++ [decode chunk_tokens];
     i := i st + (if overlap >? 0 then size - overlap else size) |}.

(** The loop is run with a bound on the number of iterations: [None]
    says that the bound was reached while the condition still held. *)
Fixpoint token_loop (fuel : nat) (tokens : list token)
    (size overlap : Z) (st : loop_state) : option loop_state :=
  if token_loop_cond tokens st then
    match fuel with
    | O => None
    | S fuel' =>
        token_loop fuel' tokens size overlap
          (token_loop_body tokens size overlap st)
    end
  else Some st.

(** The body of [for chunk in initial_chunks]: the state is
    [(final_chunks, current_chunk)]. *)
Definition merge_step (size : Z) (st : list str * str) (chunk : str)
  : list str * str :=
  let '(final_chunks, current_chunk) := st in
  if len (split_ws current_chunk) + len (split_ws chunk) <=? size
  then (final_chunks,
        current_chunk ++ (if truthy current_chunk then py " " else py "")
          ++ chunk)
  else
    let final_chunks :=
      if truthy current_chunk then final_chunks ++ [current_chunk]
      else final_chunks in
    if len (split_ws chunk) >? size
    then
      let sub_chunks := split_text size chunk separators in
      (final_chunks
         ++ filter (fun c => truthy (strip c) = true) sub_chunks,
       py "")
    else (final_chunks, chunk).

Definition chunk_text_recursive (fuel : nat)
    (text mode : str) (size overlap : Z) : option (list str) :=
  if negb (truthy (strip text)) then Some []
  else
    let merge (initial_chunks : list str) : list str :=
      let '(final_chunks, current_chunk) :=
        fold_left (merge_step size) initial_chunks ([], py "") in
      if truthy current_chunk then final_chunks ++ [current_chunk]
      else final_chunks in
    if bool_decide (mode = py "paragraph") then
      Some (merge
              (map strip
                 (filter (fun p => truthy (strip p) = true)
                    (split_on [ascii_of_N 10; ascii_of_N 10] text))))
    else if bool_decide (mode = py "sentence") then
      Some (merge (sent_tokenize text))
    else
      let tokens := encode text in
      chunks <$>
        token_loop fuel tokens size overlap {| i := 0; chunks := [] |}.

(** [chunk_text]: the router. *)
Definition chunk_text (fuel : nat)
    (text algorithm mode : str) (size overlap : Z)
  : option (list str) :=
  if bool_decide (algorithm = py "Sliding Window")
  then Some (chunk_text_sliding_window text mode size overlap)
  else chunk_text_recursive fuel text mode size overlap.

End Tokenizer.

End Chunking.

(** *** Effects: a log of the calls that leave the program, and exceptions *)

Module Eff.

(** An exception is represented by its message, [str(e)]. *)
Definition exn : Type := str.

(** The result of a call that may raise. *)
Inductive outcome (A : Type) : Type :=
| Return (a : A)
| Raise (e : exn).
Arguments Return {A} a.
Arguments Raise {A} e.

(** What a progress callback is told. *)
Inductive status : Type :=
| Running (iteration num_runs : Z)
| Waiting (delay_seconds : Q)
| FieldName (field_name : str).

(** The calls that leave the program, in the order they are made:
    [time.sleep(seconds)], [progress_callback(current, total, status)],
    and the call of the function [callee] made for the item at position
    [i] (a run, a field).  The first two are modelled on their domain: a
    duration is not negative, and a callback returns. *)
Inductive event : Type :=
| Sleep (seconds : Q)
| Progress (current total : Z) (st : status)
| Call (callee : str) (i : Z).

(** The state of a batch loop: the list [results] it appends to, the
    token tracker where there is one, and the calls made so far. *)
Record state (R T : Type) : Type := State {
  results : list R;
  tracker : T;
  log : list event
}.
Arguments State {R T} results tracker log.
Arguments results {R T} s.
Arguments tracker {R T} s.
Arguments log {R T} s.

(** A computation over a mutable state [S] that returns or raises.  The
    state changes made before an exception is raised persist, as the
    mutations of a Python object do. *)
Definition M (S A : Type) : Type := S -> S * outcome A.

Definition ret {S A} (a : A) : M S A := fun s => (s, Return a).

Definition bind {S A B} (m : M S A) (k : A -> M S B) : M S B :=
  fun s =>
    match m s with
    | (s', Return a) => k a s'
    | (s', Raise e) => (s', Raise e)
    end.

(** The result of a call out of the program. *)
Definition call {S A} (o : outcome A) : M S A := fun s => (s, o).

(** Sequencing two steps that raise or return and touch no state. *)
Definition and_then {A B} (o : outcome A) (k : A -> outcome B)
  : outcome B :=
  match o with
  | Return a => k a
  | Raise e => Raise e
  end.

Definition modify {S} (f : S -> S) : M S unit :=
  fun s => (f s, Return tt).

(** [try: body except Exception as e: handler(e)] *)
Definition try_except {S A} (body : M S A) (handler : exn -> M S A)
  : M S A :=
  fun s =>
    match body s with
    | (s', Return a) => (s', Return a)
    | (s', Raise e) => handler e s'
    end.

(** [results.append(r)] *)
Definition append {R T} (r : R) : M (state R T) unit :=
  modify (fun s => {| results := results s ++ [r];
                      tracker := tracker s; log := log s |}).

Definition emit {R T} (e : event) : M (state R T) unit :=
  modify (fun s => {| results := results s;
                      tracker := tracker s; log := log s ++ [e] |}).

(** A method call on the tracker. *)
Definition track {R T} (f : T -> T) : M (state R T) unit :=
  modify (fun s => {| results := results s;
                      tracker := f (tracker s); log := log s |}).

(** The call of [callee] for the item at position [i], which returns or
    raises as [o] says. *)
Definition invoke {R T A} (callee : str) (i : Z) (o : outcome A)
  : M (state R T) A :=
  bind (emit (Call callee i)) (fun _ => call o).

(** [if b: m] *)
Definition when {S} (b : bool) (m : M S unit) : M S unit :=
  if b then m else ret tt.

(** [for x in l: body(x)] *)
Fixpoint for_each {S A} (l : list A) (body : A -> M S unit) : M S unit :=
  match l with
  | [] => ret tt
  | x :: l' => bind (body x) (fun _ => for_each l' body)
  end.

(** [enumerate(l)], counting from [start]. *)
Fixpoint enumerate_from {A} (start : Z) (l : list A) : list (Z * A) :=
  match l with
  | [] => []
  | x :: l' => (start, x) :: enumerate_from (start + 1) l'
  end.

Definition enumerate {A} (l : list A) : list (Z * A) := enumerate_from 0 l.

(** [str(n)] for an integer. *)
Definition str_of_Z (n : Z) : str := py (NilZero.string_of_int (Z.to_int n)).

Declare Scope eff_scope.
Delimit Scope eff_scope with eff.
Notation "'do' x <- m ; k" := (bind m (fun x => k))
  (at level 10, x name, m at level 100, k at level 200) : eff_scope.
Notation "m ;; k" := (bind m (fun _ => k))
  (at level 100, k at level 200, right associativity) : eff_scope.

End Eff.

Import Eff.

(** *** The benchmark harness (analysis/benchmarking.py) *)

Module Benchmarking.

(** One entry of the list [run_benchmark_test] returns.  The key [error]
    is present in the entries of failed runs only. *)
Record run_record : Type := RunRecord {
  run : Z;
  value : str;
  confidence : Q;
  time_ms : Q;
  num_chunks : Z;
  error : option str
}.

Section Harness.

(** The type of the retrieved chunks an extractor hands back. *)
Context {chunk : Type}.

(** [extractor(query)] as called in iteration [i]: it returns
    [(value, confidence, chunks)] or raises. *)
Variable extractor : Z -> str -> outcome (str * Q * list chunk).

(** [time.time() - start_time] as measured in iteration [i], and
    [round(x, 2)]. *)
Variable elapsed_time : Z -> Q.
Variable round2 : Q -> Q.

(** [True] when a [progress_callback] is passed. *)
Variable progress_callback : bool.

(** The body of the [try] of iteration [i] ... *)
Definition try_run (query : str) (num_runs : Z) (delay_seconds : Q)
    (i : Z) : M (state run_record unit) unit :=
  (do r <- invoke (py "extractor") i (extractor i query);
   let '(extracted_value, confidence, chunks) := r in
   append {| run := i + 1;
             value := extracted_value;
             confidence := confidence;
             time_ms := round2 (elapsed_time i * 1000);
             num_chunks :=
               match chunks with [] => 0 | _ :: _ => len chunks end;
             error := None |};;
   when (i <? num_runs - 1)
     (when progress_callback
        (emit (Progress i num_runs (Waiting delay_seconds)));;
      emit (Sleep delay_seconds)))%eff.

(** ... and its [except Exception as e] clause. *)
Definition except_run (num_runs : Z) (delay_seconds : Q) (i : Z) (e : exn)
  : M (state run_record unit) unit :=
  (append {| run := i + 1;
             value := py "ERROR";
             confidence := 0;
             time_ms := 0;
             num_chunks := 0;
             error := Some e |};;
   when (i <? num_runs - 1) (emit (Sleep (delay_seconds * 2))))%eff.

(** The body of [for i in range(num_runs)]. *)
Definition iteration (query : str) (num_runs : Z) (delay_seconds : Q)
    (i : Z) : M (state run_record unit) unit :=
  (when progress_callback
     (emit (Progress i num_runs (Running (i + 1) num_runs)));;
   try_except (try_run query num_runs delay_seconds i)
              (except_run num_runs delay_seconds i))%eff.

(** [run_benchmark_test]: the value returned (the list [results], or the
    exception that escaped) and the calls made. *)
Definition run_benchmark_test (query : str) (num_runs : Z)
    (delay_seconds : Q) : outcome (list run_record) * list event :=
  let '(s, r) :=
    for_each (range0 num_runs 1) (iteration query num_runs delay_seconds)
      {| results := []; tracker := tt; log := [] |} in
  (match r with
   | Return _ => Return (results s)
   | Raise e => Raise e
   end, log s).

End Harness.

End Benchmarking.

(** *** Multi-field extraction (core/extraction.py) *)

Module Extraction.

(** One element of the list a retriever returns. *)
Record retrieved : Type := Retrieved {
  chunk : str;
  distance : Q;
  chunk_confidence : Q
}.

(** A field: a dictionary with the keys [field_name] and [query]. *)
Definition field : Type := gmap str str.

Record field_result : Type := FieldResult {
  field_name : str;
  value : str;
  confidence : Q;
  reasoning : str;
  query : str
}.

Section Batch.

(** [retriever(query)] and
    [extract_field_value(client, query, context_text)] as called for
    the field at position [i]; each returns or raises.  The pauses
    [extract_field_value] makes between its own retries are part of
    that call. *)
Variable retriever : Z -> str -> outcome (list retrieved).
Variable extract_field_value : Z -> str -> str -> outcome (str * Q * str).

(** [round(x, 1)] *)
Variable round1 : Q -> Q.

Variable progress_callback : bool.

Definition field_name_of (entry : Z * field) : str :=
  let '(i, field) := entry in
  default (py "Field " ++ str_of_Z (i + 1)) (field !! py "field_name").

Definition field_query_of (entry : Z * field) : str :=
  default (py "") (snd entry !! py "query").

(** The body of the [try] for the field at position [i] ... *)
Definition try_field (total : Z) (delay_seconds : Q) (entry : Z * field)
  : M (state field_result unit) unit :=
  let i := fst entry in
  let field_name := field_name_of entry in
  let query := field_query_of entry in
  (do retrieved <- invoke (py "retriever") i (retriever i query);
   let context_text :=
     join [ascii_of_N 10; ascii_of_N 10] (map chunk retrieved) in
   do r <- invoke (py "extract_field_value") i
             (extract_field_value i query context_text);
   let '(extracted_value, confidence, reasoning) := r in
   append {| field_name := field_name;
             value := extracted_value;
             confidence := round1 confidence;
             reasoning := reasoning;
             query := query |};;
   when (i <? total - 1) (emit (Sleep delay_seconds)))%eff.

(** ... and its [except Exception as e] clause. *)
Definition except_field (total : Z) (delay_seconds : Q) (entry : Z * field)
    (e : exn) : M (state field_result unit) unit :=
  let i := fst entry in
  (append {| field_name := field_name_of entry;
             value := py "ERROR";
             confidence := 0;
             reasoning := e;
             query := field_query_of entry |};;
   when (i <? total - 1) (emit (Sleep (delay_seconds * 2))))%eff.

(** The body of [for i, field in enumerate(fields)]. *)
Definition extract_one (total : Z) (delay_seconds : Q)
    (entry : Z * field) : M (state field_result unit) unit :=
  (when progress_callback
     (emit (Progress (fst entry) total
              (FieldName (field_name_of entry))));;
   try_except (try_field total delay_seconds entry)
              (except_field total delay_seconds entry))%eff.

Definition extract_all_fields (fields : list field) (delay_seconds : Q)
  : outcome (list field_result) * list event :=
  match fields with
  | [] => (Return [], [])
  | _ :: _ =>
      let '(s, r) :=
        for_each (enumerate fields)
          (extract_one (len fields) delay_seconds)
          {| results := []; tracker := tt; log := [] |} in
      (match r with
       | Return _ => Return (results s)
       | Raise e => Raise e
       end, log s)
  end.

End Batch.

End Extraction.

(** *** Retrieval (core/retrieval.py) *)

Module Retrieval.

Import Extraction.

(** An embedding: a row of numbers.  The arithmetic on distances and
    confidences is exact. *)
Definition vector : Type := list Q.

(** [l[idx]]: a negative index counts from the end, and an index outside
    the list raises [IndexError]. *)
Definition index_at {A} (l : list A) (idx : Z) : outcome A :=
  let k := if idx <? 0 then idx + len l else idx in
  if (0 <=? k) && (k <? len l)
  then match l !! Z.to_nat k with
       | Some x => Return x
       | None => Raise (py "list index out of range")
       end
  else Raise (py "list index out of range").

Section Retrieve.

(** [embed_query(client, query)], the one row of the array it returns,
    and [index.search(q_emb, top_k)], the rows [D[0]] and [I[0]] of the
    two arrays it returns; both are modelled where they return.
    [round2] is [round(x, 2)]. *)
Variable embed_query : str -> vector.
Variable search : vector -> Z -> list Q * list Z.
Variable round2 : Q -> Q.

(** The loop [for dist, idx in zip(D[0], I[0])], with the list [results]
    it appends to. *)
Fixpoint collect (chunks : list str) (pairs : list (Q * Z))
    (results : list retrieved) : outcome (list retrieved) :=
  match pairs with
  | [] => Return results
  | (dist, idx) :: rest =>
      and_then (index_at chunks idx)
        (fun chunk_text =>
           let cosine_sim := Qmax 0 (Qmin 1 (1 - dist / 2)) in
           let confidence := round2 (cosine_sim * 100) in
           collect chunks rest
             (results ++ [ {| chunk := chunk_text;
                              distance := dist;
                              chunk_confidence := confidence |} ]))
  end.

Definition retrieve (chunks : list str) (query : str) (top_k : Z)
  : outcome (list retrieved) :=
  let q_emb := embed_query query in
  let '(D0, I0) := search q_emb top_k in
  collect chunks (zip D0 I0) [].

End Retrieve.

End Retrieval.

(** *** Token accounting (utils/token_counter.py) *)

Module TokenCounter.

(** [TokenTracker] *)
Record token_tracker : Type := TokenTracker {
  llm_input_tokens : Z;
  llm_output_tokens : Z;
  embedding_tokens : Z;
  llm_calls : Z;
  embedding_calls : Z
}.

Definition new_tracker : token_tracker :=
  {| llm_input_tokens := 0; llm_output_tokens := 0; embedding_tokens := 0;
     llm_calls := 0; embedding_calls := 0 |}.

Section Encoder.

Context {token : Type}.
Variable encode : str -> list token.

Definition count_tokens (text : str) : Z :=
  if negb (truthy text) then 0 else len (encode text).

Definition estimate_embedding_tokens (texts : list str) : Z :=
  fold_left (fun acc text => acc + count_tokens text) texts 0.

Definition add_llm_usage (prompt response : str) (t : token_tracker)
  : token_tracker :=
  {| llm_input_tokens := llm_input_tokens t + count_tokens prompt;
     llm_output_tokens := llm_output_tokens t + count_tokens response;
     embedding_tokens := embedding_tokens t;
     llm_calls := llm_calls t + 1;
     embedding_calls := embedding_calls t |}.

Definition add_embedding_usage (texts : list str) (t : token_tracker)
  : token_tracker :=
  {| llm_input_tokens := llm_input_tokens t;
     llm_output_tokens := llm_output_tokens t;
     embedding_tokens := embedding_tokens t + estimate_embedding_tokens texts;
     llm_calls := llm_calls t;
     embedding_calls := embedding_calls t + 1 |}.

End Encoder.

End TokenCounter.

(** *** The RAG flow (analysis/flow_comparison.py) *)

Module FlowComparison.

Import TokenCounter.

(** The values [json.loads] produces. *)
Inductive json : Type :=
| JNull
| JBool (b : bool)
| JInt (n : Z)
| JFloat (q : Q)
| JStr (s : str)
| JArr (items : list json)
| JObj (items : list (str * json)).

Definition type_name (v : json) : str :=
  match v with
  | JNull => py "NoneType"
  | JBool _ => py "bool"
  | JInt _ => py "int"
  | JFloat _ => py "float"
  | JStr _ => py "str"
  | JArr _ => py "list"
  | JObj _ => py "dict"
  end.

Fixpoint lookup_key (items : list (str * json)) (key : str) : option json :=
  match items with
  | [] => None
  | (k, v) :: items' =>
      if bool_decide (k = key) then Some v else lookup_key items' key
  end.

(** [parsed.get(key, default)]: only a dictionary has the method. *)
Definition get (parsed : json) (key : str) (default_value : json)
  : outcome json :=
  match parsed with
  | JObj items => Return (default default_value (lookup_key items key))
  | _ =>
      Raise (py "'" ++ type_name parsed
               ++ py "' object has no attribute 'get'")
  end.

(** One entry of the list [rag_extraction] returns.  The key [chunks_used]
    is present in the entries of the fields that were extracted, the key
    [error] in those of the fields that failed. *)
Record field_result : Type := FieldResult {
  field_name : str;
  value : str;
  confidence : Q;
  confidence_reason : json;
  source : str;
  chunks_used : option Z;
  error : option str
}.

Definition nl : str := [ascii_of_N 10].
Definition dq : str := [ascii_of_N 34].
Definition fence : str := py "```".

(** The tail of the prompt:
    [JSON: {"value":"...","confidence":0-100,"reason":"..."}]. *)
Definition json_hint : str :=
  py "JSON: {" ++ dq ++ py "value" ++ dq ++ py ":" ++ dq ++ py "..." ++ dq
    ++ py "," ++ dq ++ py "confidence" ++ dq ++ py ":0-100," ++ dq
    ++ py "reason" ++ dq ++ py ":" ++ dq ++ py "..." ++ dq ++ py "}".

Section Rag.

Context {token : Type}.
Variable encode : str -> list token.

(** [retriever(query)] and
    [client.models.generate_content(...).text] as called for the field
    at position [i]. *)
Variable retriever : Z -> str -> outcome (list Extraction.retrieved).
Variable generate_content : Z -> str -> outcome str.

(** [json.loads]: [None] stands for [json.JSONDecodeError]. *)
Variable json_loads : str -> option json.

(** [str(v)], [float(v)] and [round(x, 1)]. *)
Variable py_str : json -> str.
Variable py_float : json -> outcome Q.
Variable round1 : Q -> Q.

Variable progress_callback : bool.

Definition rag_name_of (entry : Z * Extraction.field) : str :=
  let '(i, field) := entry in
  default (py "Field " ++ str_of_Z (i + 1)) (field !! py "field_name").

Definition rag_query_of (entry : Z * Extraction.field) : str :=
  default (py "What is the " ++ rag_name_of entry ++ py "?")
          (snd entry !! py "query").

(** From [response_text = response.text.strip()] to the values of
    [extracted_value], [llm_confidence] and [confidence_reason]: the
    code fence is removed, the text is decoded, and the three keys are
    read; a [json.JSONDecodeError] is caught on the spot, any other
    exception leaves the [try]. *)
Definition read_response (response : str) : outcome (str * Q * json) :=
  let response_text := strip response in
  and_then
    (if startswith fence response_text
     then
       match split_on fence response_text !! 1%nat with
       | Some part =>
           Return (if startswith (py "json") part then drop 4 part
                   else part)
       | None => Raise (py "list index out of range")
       end
     else Return response_text)
    (fun response_text =>
       match json_loads response_text with
       | Some parsed =>
           and_then (get parsed (py "value") (JStr (py "N/A")))
             (fun v =>
           and_then (get parsed (py "confidence") (JInt 50))
             (fun c =>
           and_then (py_float c)
             (fun llm_confidence =>
           and_then (get parsed (py "reason")
                       (JStr (py "No reason provided")))
             (fun reason =>
           Return (py_str v, llm_confidence, reason)))))
       | None =>
           Return (strip response, 50%Q,
                   JStr (py "Could not parse LLM confidence response"))
       end).

(** The body of the [try] for the field at position [i] ... *)
Definition try_rag_field (total : Z) (delay_seconds : Q)
    (entry : Z * Extraction.field)
  : M (state field_result token_tracker) unit :=
  let i := fst entry in
  let field_name := rag_name_of entry in
  let query := rag_query_of entry in
  (do retrieved <- invoke (py "retriever") i (retriever i query);
   let top_chunks := slice_to retrieved (Z.min 2 (len retrieved)) in
   let context_parts :=
     map (fun chunk_data =>
            let chunk_text := Extraction.chunk chunk_data in
            if len chunk_text >? 200
            then slice_to chunk_text 200 ++ py "..."
            else chunk_text)
         top_chunks in
   let context_text := join nl context_parts in
   track (add_embedding_usage encode [query]);;
   let extraction_prompt :=
     py "Context: " ++ context_text ++ nl ++ nl
       ++ py "Extract " ++ field_name ++ py " for: " ++ query
       ++ nl ++ nl ++ json_hint in
   do response <-
     invoke (py "generate_content") i
       (generate_content i extraction_prompt);
   track (add_llm_usage encode extraction_prompt response);;
   do parsed_fields <- call (read_response response);
   let '(extracted_value, llm_confidence, confidence_reason) :=
     parsed_fields in
   append {| field_name := field_name;
             value := extracted_value;
             confidence := round1 llm_confidence;
             confidence_reason := confidence_reason;
             source := py "rag";
             chunks_used := Some (len top_chunks);
             error := None |};;
   when (i <? total - 1) (emit (Sleep delay_seconds)))%eff.

(** ... and its [except Exception as e] clause. *)
Definition except_rag_field (total : Z) (delay_seconds : Q)
    (entry : Z * Extraction.field) (e : exn)
  : M (state field_result token_tracker) unit :=
  let i := fst entry in
  (append {| field_name := rag_name_of entry;
             value := py "ERROR";
             confidence := 0;
             confidence_reason := JStr e;
             source := py "rag";
             chunks_used := None;
             error := Some e |};;
   when (i <? total - 1) (emit (Sleep (delay_seconds * 2))))%eff.

(** The body of [for i, field in enumerate(fields)]. *)
Definition rag_one (total : Z) (delay_seconds : Q)
    (entry : Z * Extraction.field)
  : M (state field_result token_tracker) unit :=
  (when progress_callback
     (emit (Progress (fst entry) total
              (FieldName (rag_name_of entry))));;
   try_except (try_rag_field total delay_seconds entry)
              (except_rag_field total delay_seconds entry))%eff.

(** [rag_extraction]: the list [results] it returns (or the exception
    that escaped), the token tracker its metrics are read from, and the
    calls made. *)
Definition rag_extraction (fields : list Extraction.field)
    (delay_seconds : Q)
  : outcome (list field_result) * token_tracker * list event :=
  let '(s, r) :=
    for_each (enumerate fields) (rag_one (len fields) delay_seconds)
      {| results := []; tracker := new_tracker; log := [] |} in
  (match r with
   | Return _ => Return (results s)
   | Raise e => Raise e
   end, tracker s, log s).

End Rag.

End FlowComparison.

(** *** SHA-256 ([hashlib.sha256]), after FIPS 180-4 *)

Module Sha256.

#[local] Open Scope N_scope.

(** A 32-bit word, and addition modulo 2^32. *)
Definition word : Type := N.
Definition wrap (x : N) : word := x mod 2 ^ 32.
Definition add (x y : word) : word := wrap (x + y).
Definition rotr (n : N) (x : word) : word :=
  N.lor (N.shiftr x n) (wrap (N.shiftl x (32 - n))).
Definition shr (n : N) (x : word) : word := N.shiftr x n.
Definition not32 (x : word) : word := N.lxor x (2 ^ 32 - 1).
Definition Ch (x y z : word) : word :=
  N.lxor (N.land x y) (N.land (not32 x) z).
Definition Maj (x y z : word) : word :=
  N.lxor (N.lxor (N.land x y) (N.land x z)) (N.land y z).
Definition Sigma0 x := N.lxor (N.lxor (rotr 2 x) (rotr 13 x)) (rotr 22 x).
Definition Sigma1 x := N.lxor (N.lxor (rotr 6 x) (rotr 11 x)) (rotr 25 x).
Definition sigma0 x := N.lxor (N.lxor (rotr 7 x) (rotr 18 x)) (shr 3 x).
Definition sigma1 x := N.lxor (N.lxor (rotr 17 x) (rotr 19 x)) (shr 10 x).

(** The first 64 primes: the round constants are the leading 32 bits of
    the fractional parts of their cube roots, the initial hash value those
    of the square roots of the first eight. *)
Definition is_prime (n : N) : bool :=
  forallb (fun d => negb (n mod d =? 0))
          (map N.of_nat (seq 2 (N.to_nat (N.sqrt n) - 1))).
Definition primes : list N :=
  filter (fun n => is_prime n = true) (map N.of_nat (seq 2 310)).

(** The integer cube root, one bit at a time. *)
Definition cbrt (n : N) : N :=
  fold_left (fun r b => let r' := r + 2 ^ b in
                        if r' * r' * r' <=? n then r' else r)
            (map N.of_nat (rev (seq 0 36))) 0.

Definition K : list word := map (fun p => wrap (cbrt (p * 2 ^ 96))) primes.
Definition H0 : list word :=
  map (fun p => wrap (N.sqrt (p * 2 ^ 64))) (take 8 primes).

(** The eight working variables, and the hash value, of FIPS 180-4. *)
Definition regs : Type := word * word * word * word * word * word * word * word.

Definition initial : regs :=
  match H0 with
  | [a; b; c; d; e; f; g; h] => (a, b, c, d, e, f, g, h)
  | _ => (0, 0, 0, 0, 0, 0, 0, 0)
  end.

Definition round (r : regs) (kw : word * word) : regs :=
  let '(a, b, c, d, e, f, g, h) := r in
  let '(k, w) := kw in
  let t1 := add (add (add (add h (Sigma1 e)) (Ch e f g)) k) w in
  let t2 := add (Sigma0 a) (Maj a b c) in
  (add t1 t2, a, b, c, add d t1, e, f, g).

(** The message schedule, latest word first. *)
Definition extend (ws : list word) : list word :=
  let w k := nth k ws 0 in
  add (add (add (sigma1 (w 1%nat)) (w 6%nat)) (sigma0 (w 14%nat))) (w 15%nat)
    :: ws.

Definition schedule (block : list word) : list word :=
  rev (Nat.iter 48 extend (rev block)).

Definition compress (hash : regs) (block : list word) : regs :=
  let '(a, b, c, d, e, f, g, h) :=
    fold_left round (zip K (schedule block)) hash in
  let '(a0, b0, c0, d0, e0, f0, g0, h0) := hash in
  (add a0 a, add b0 b, add c0 c, add d0 d,
   add e0 e, add f0 f, add g0 g, add h0 h).

(** Big-endian bytes of a number, [n] of them. *)
Definition be_bytes (n : nat) (x : N) : list N :=
  map (fun k => (x / 256 ^ N.of_nat k) mod 256) (rev (seq 0 n)).

Definition be_word (bytes : list N) : word :=
  fold_left (fun acc b => acc * 256 + b) bytes 0.

Definition pad (message : list N) : list N :=
  let l := N.of_nat (length message) in
  let zeros := N.to_nat ((119 - l mod 64) mod 64) in
  message ++ [128] ++ repeat 0 zeros ++ be_bytes 8 (8 * l).

(** Cut a list into pieces of [n] elements; [fuel] bounds the number of
    pieces. *)
Fixpoint pieces {A} (fuel n : nat) (l : list A) : list (list A) :=
  match fuel, l with
  | O, _ | _, [] => []
  | S fuel', _ => take n l :: pieces fuel' n (drop n l)
  end.

Definition blocks (bytes : list N) : list (list word) :=
  map (fun block => map be_word (pieces 16 4 block))
      (pieces (length bytes) 64 bytes).

Definition digest (message : list N) : regs :=
  fold_left compress (blocks (pad message)) initial.

Definition hex_digit (n : N) : ascii :=
  nth (N.to_nat n) (list_ascii_of_string "0123456789abcdef") "0"%char.

Definition hex_word (w : word) : list ascii :=
  map (fun k => hex_digit ((w / 16 ^ N.of_nat k) mod 16)) (rev (seq 0 8)).

(** [hashlib.sha256(message).hexdigest()] *)
Definition hexdigest (message : list N) : list ascii :=
  let '(a, b, c, d, e, f, g, h) := digest message in
  hex_word a ++ hex_word b ++ hex_word c ++ hex_word d
    ++ hex_word e ++ hex_word f ++ hex_word g ++ hex_word h.

(** [text.encode('utf-8')] for code points below 256. *)
Definition utf8 (text : list ascii) : list N :=
  flat_map (fun c => let n := N_of_ascii c in
                     if n <? 128 then [n] else [192 + n / 64; 128 + n mod 64])
           text.
End Sha256.

(** *** POSIX paths ([os.path]) *)

Module Posix.

Definition sep : str := py "/".

Definition endswith (p s : str) : bool := startswith (rev p) (rev s).

Definition isabs (path : str) : bool := startswith sep path.

(** [os.path.join(a, b)] *)
Definition path_join (a b : str) : str :=
  if startswith sep b then b
  else if negb (truthy a) || endswith sep a then a ++ b
  else a ++ sep ++ b.

(** The loop of [normpath] over the components; [new_comps] is kept last
    component first. *)
Definition norm_step (initial_slashes : nat) (new_comps : list str)
    (comp : str) : list str :=
  if bool_decide (comp ∈ [py ""; py "."]) then new_comps
  else if negb (bool_decide (comp = py ".."))
          || (bool_decide (initial_slashes = 0%nat)
              && bool_decide (new_comps = []))
          || bool_decide (head new_comps = Some (py ".."))
  then comp :: new_comps
  else tail new_comps.

(** [os.path.normpath(path)] *)
Definition normpath (path : str) : str :=
  if negb (truthy path) then py "."
  else
    let initial_slashes : nat :=
      if startswith sep path then
        if startswith (py "//") path && negb (startswith (py "///") path)
        then 2%nat else 1%nat
      else 0%nat in
    let comps := rev (fold_left (norm_step initial_slashes)
                        (split_on sep path) []) in
    let path := concat (repeat sep initial_slashes) ++ join sep comps in
    if truthy path then path else py ".".

(** [os.path.abspath(path)], in the working directory [cwd]. *)
Definition abspath (cwd path : str) : str :=
  normpath (if isabs path then path else path_join cwd path).

End Posix.

(** *** The index cache (core/index_persistence.py) *)

Module IndexPersistence.

Import Posix.

(** [get_document_hash] *)
Definition get_document_hash (text : str) : str :=
  take 16 (Sha256.hexdigest (Sha256.utf8 text)).

Section Store.

(** A FAISS index with its attributes [d] and [ntotal], and the
    dictionary [chunking_config]. *)
Context {faiss_index config : Type}.
Variable index_d : faiss_index -> Z.
Variable index_ntotal : faiss_index -> Z.

(** The dictionary that [json.dump] writes. *)
Record metadata : Type := Metadata {
  document_hash : str;
  pdf_filename : str;
  created_at : str;
  num_chunks : Z;
  chunks : list str;
  chunking_config : config;
  document_length : Z;
  index_dimension : Z;
  index_total : Z
}.

(** What a file holds: an index written by [faiss.write_index], or the
    JSON text of a dictionary. *)
Inductive file : Type :=
| IndexFile (index : faiss_index)
| JsonFile (m : metadata).

(** The file system, where its calls succeed: the working directory,
    the directories and the files by path. *)
Record filesystem : Type := FileSystem {
  cwd : str;
  dirs : gset str;
  files : gmap str file
}.

(** [os.makedirs(path, exist_ok=True)] *)
Definition makedirs (path : str) (fs : filesystem) : filesystem :=
  {| cwd := cwd fs; dirs := {[ path ]} ∪ dirs fs; files := files fs |}.

(** Writing a whole file, as [faiss.write_index] and [open(path, 'w')]
    followed by [json.dump] do. *)
Definition write (path : str) (content : file) (fs : filesystem)
  : filesystem :=
  {| cwd := cwd fs; dirs := dirs fs;
     files := <[ path := content ]> (files fs) |}.

Definition get_index_directory (base_dir : str) (fs : filesystem)
  : filesystem * str :=
  let index_dir := abspath (cwd fs) base_dir in
  (makedirs index_dir fs, index_dir).

Definition get_index_path (document_hash base_dir : str)
    (fs : filesystem) : filesystem * (str * str) :=
  let '(fs, index_dir) := get_index_directory base_dir fs in
  let index_path := path_join index_dir (document_hash ++ py ".faiss") in
  let metadata_path :=
    path_join index_dir (document_hash ++ py "_metadata.json") in
  (fs, (index_path, metadata_path)).

(** [save_index]; [now] is [datetime.now().isoformat()] at the call. *)
Definition save_index (index : faiss_index) (chunks : list str)
    (document_text pdf_filename : str) (chunking_config : config)
    (base_dir : str) (now : str) (fs : filesystem)
  : filesystem * str :=
  let doc_hash := get_document_hash document_text in
  let '(fs, (index_path, metadata_path)) :=
    get_index_path doc_hash base_dir fs in
  let fs := write index_path (IndexFile index) fs in
  let metadata :=
    {| document_hash := doc_hash;
       pdf_filename := pdf_filename;
       created_at := now;
       num_chunks := len chunks;
       chunks := chunks;
       chunking_config := chunking_config;
       document_length := len document_text;
       index_dimension := index_d index;
       index_total := index_ntotal index |} in
  let fs := write metadata_path (JsonFile metadata) fs in
  (fs, doc_hash).

End Store.

End IndexPersistence.

(** ** Part II.  The vocabulary of the specification *)

Module SpecWords.

(** [sub] occurs in [s] as a substring. *)
Definition Substring (sub s : str) : Prop :=
  exists pre post, s = pre ++ sub ++ post.

(** Nothing, or white space, stands right after a word ... *)
Definition ends_here (post : str) : Prop :=
  match post with
  | [] => True
  | c :: _ => isspace c = true
  end.

(** ... and right before it. *)
Definition starts_here (pre : str) : Prop := ends_here (rev pre).

(** [w] is a whitespace-delimited word of [s]: a non-empty run of
    characters that are not white space, with white space or an end of
    [s] on either side. *)
Definition WordOf (w s : str) : Prop :=
  w <> [] /\ Forall (fun c => isspace c = false) w /\
  exists pre post,
    s = pre ++ w ++ post /\ starts_here pre /\ ends_here post.

(** The trimmed lowercased form in which two values are compared. *)
Definition norm (s : str) : str := strip (lower s).

(** [n] is the number of different strings that satisfy [P]. *)
Definition Counts (P : str -> Prop) (n : nat) : Prop :=
  exists ws : list str,
    NoDup ws /\ (forall w, w ∈ ws <-> P w) /\ length ws = n.

(** The master value is empty, or is "n/a" in whatever case. *)
Definition master_missing (master : str) : Prop :=
  master = [] \/ lower master = py "n/a".

(** One string contains the other. *)
Definition one_contains (a b : str) : Prop :=
  Substring a b \/ Substring b a.

(** A word of the master occurs in the extracted value. *)
Definition shares_word (extracted master : str) : Prop :=
  exists w, WordOf w (lower master) /\ Substring w (lower extracted).

(** The rules of the Scorer's match classification, in the order of the
    specification: each rule applies when none of those before it does. *)
Inductive match_rule (extracted master : str) : str * Z -> Prop :=
| match_na :
    master_missing master ->
    match_rule extracted master (py "N/A", 0)
| match_exact :
    ~ master_missing master ->
    norm extracted = norm master ->
    match_rule extracted master (py "exact", 100)
| match_partial :
    ~ master_missing master ->
    norm extracted <> norm master ->
    one_contains (norm master) (norm extracted) ->
    match_rule extracted master (py "partial", 70)
| match_fuzzy :
    ~ master_missing master ->
    norm extracted <> norm master ->
    ~ one_contains (norm master) (norm extracted) ->
    shares_word extracted master ->
    match_rule extracted master (py "fuzzy", 40)
| match_mismatch :
    ~ master_missing master ->
    norm extracted <> norm master ->
    ~ one_contains (norm master) (norm extracted) ->
    ~ shares_word extracted master ->
    match_rule extracted master (py "mismatch", 0).

(** Nothing was extracted. *)
Definition nothing_extracted (extracted : str) : Prop :=
  extracted = py "" \/ extracted = py "N/A" \/ extracted = py "ERROR".

(** [r] is the word-set overlap ratio
    |words(extracted) ∩ words(context)| / |words(extracted)|
    over the lowercased whitespace-split words. *)
Definition overlap_ratio (extracted context : str) (r : Q) : Prop :=
  exists both all : nat,
    Counts (fun w => WordOf w (lower extracted)
                     /\ WordOf w (lower context)) both /\
    Counts (fun w => WordOf w (lower extracted)) all /\
    r = (inject_Z (Z.of_nat both) / inject_Z (Z.of_nat all))%Q.

(** The steps of the ratio: above 0.8, above 0.5, above 0.2, the rest. *)
Inductive ratio_step (r : Q) : Z -> Prop :=
| step_20 : (8 # 10 < r)%Q -> ratio_step r 20
| step_40 : ~ (8 # 10 < r)%Q -> (5 # 10 < r)%Q -> ratio_step r 40
| step_60 : ~ (5 # 10 < r)%Q -> (2 # 10 < r)%Q -> ratio_step r 60
| step_80 : ~ (2 # 10 < r)%Q -> ratio_step r 80.

(** The rules of the hallucination score, in the order of the
    specification. *)
Inductive hallucination_rule (extracted master context : str)
  : Z -> Prop :=
| halluc_nothing :
    nothing_extracted extracted ->
    hallucination_rule extracted master context 0
| halluc_match :
    ~ nothing_extracted extracted ->
    norm extracted = norm master ->
    hallucination_rule extracted master context 0
| halluc_verbatim :
    ~ nothing_extracted extracted ->
    norm extracted <> norm master ->
    Substring (norm extracted) (lower context) ->
    hallucination_rule extracted master context 10
| halluc_ratio r score :
    ~ nothing_extracted extracted ->
    norm extracted <> norm master ->
    ~ Substring (norm extracted) (lower context) ->
    overlap_ratio extracted context r ->
    ratio_step r score ->
    hallucination_rule extracted master context score.

(** The same rules with the third read to the letter: the lowercased
    extracted value, not trimmed, is looked for in the lowercased
    context. *)
Inductive hallucination_rule_untrimmed (extracted master context : str)
  : Z -> Prop :=
| untrimmed_nothing :
    nothing_extracted extracted ->
    hallucination_rule_untrimmed extracted master context 0
| untrimmed_match :
    ~ nothing_extracted extracted ->
    norm extracted = norm master ->
    hallucination_rule_untrimmed extracted master context 0
| untrimmed_verbatim :
    ~ nothing_extracted extracted ->
    norm extracted <> norm master ->
    Substring (lower extracted) (lower context) ->
    hallucination_rule_untrimmed extracted master context 10
| untrimmed_ratio r score :
    ~ nothing_extracted extracted ->
    norm extracted <> norm master ->
    ~ Substring (lower extracted) (lower context) ->
    overlap_ratio extracted context r ->
    ratio_step r score ->
    hallucination_rule_untrimmed extracted master context score.

End SpecWords.

(** How [s.split()] walks: the run of characters before the first white
    space of [s], and what follows it. *)

Module WordAux.

Fixpoint word_prefix (s : str) : str :=
  match s with
  | [] => []
  | c :: s' => if isspace c then [] else c :: word_prefix s'
  end.

Fixpoint word_rest (s : str) : str :=
  match s with
  | [] => []
  | c :: s' => if isspace c then s else word_rest s'
  end.

End WordAux.

(** The quotient and the thresholds of the hallucination score, as the
    code computes them. *)

Module ScorerSpec.

Import SpecWords.

Definition overlap_of (extracted context : str) : Q :=
  let extracted_words : gset str :=
    list_to_set (split_ws (norm extracted)) in
  let context_words : gset str :=
    list_to_set (split_ws (lower context)) in
  (inject_Z (Z.of_nat (size (extracted_words ∩ context_words)))
   / inject_Z (Z.of_nat (size extracted_words)))%Q.

Definition step_of (r : Q) : Z :=
  if Scorer.Qgtb r (8 # 10) then 20
  else if Scorer.Qgtb r (5 # 10) then 40
  else if Scorer.Qgtb r (2 # 10) then 60
  else 80.

End ScorerSpec.

(** The vocabulary for the chunker. *)

Module ChunkingSpec.

(** The window [l[start : start + size]] of a list, for a start inside
    the list. *)
Definition window {A} (l : list A) (start size : nat) : list A :=
  take size (drop start l).

(** The step of the token mode of the recursive algorithm. *)
Definition recursive_step (size overlap : Z) : Z :=
  if overlap >? 0 then size - overlap else size.

End ChunkingSpec.

(** The vocabulary for retrieval. *)

Module RetrievalSpec.

Import Retrieval.

(** The square of the L2 distance between two embeddings. *)
Fixpoint sq_l2 (u v : vector) : Q :=
  match u, v with
  | a :: u', b :: v' => ((a - b) * (a - b) + sq_l2 u' v')%Q
  | _, _ => 0%Q
  end.

(** What a flat L2 index over the rows [xb], the index
    [build_faiss_index] builds, reports for the query [q]: with every
    label, a row of the index, the square of the L2 distance between [q]
    and that row, the nearest row first. *)
Definition flat_l2_result (xb : list vector) (q : vector)
    (D0 : list Q) (I0 : list Z) : Prop :=
  Forall2 (fun dist idx =>
             0 <= idx
             /\ exists x, xb !! Z.to_nat idx = Some x /\ dist = sq_l2 q x)
          D0 I0
  /\ StronglySorted Qle D0.

(** A hit for the row labelled [idx]: its chunk, the distance of its
    embedding from the query, and the confidence
    round(min(1, max(0, 1 - d^2 / 2)) * 100, 2). *)
Definition hit_for (round2 : Q -> Q) (xb : list vector)
    (chunks : list str) (q : vector)
    (hit : Extraction.retrieved) (idx : Z) : Prop :=
  exists x,
    xb !! Z.to_nat idx = Some x
    /\ chunks !! Z.to_nat idx = Some (Extraction.chunk hit)
    /\ Extraction.distance hit = sq_l2 q x
    /\ Extraction.chunk_confidence hit
       = round2 (Qmin 1 (Qmax 0 (1 - sq_l2 q x / 2)) * 100)%Q.

End RetrievalSpec.

(** The vocabulary for the batch loops. *)

Module SpecTrace.

(** The positions 0, 1, ..., n - 1. *)
Definition indices (n : Z) : list Z := map Z.of_nat (seq 0 (Z.to_nat n)).

(** The durations of the pauses, in the order they were made. *)
Definition sleeps (log : list event) : list Q :=
  omap (fun e => match e with Sleep d => Some d | _ => None end) log.

Definition is_pacing (callee : str) (e : event) : bool :=
  match e with
  | Sleep _ => true
  | Call c _ => bool_decide (c = callee)
  | Progress _ _ _ => false
  end.

(** The calls of [callee] and the pauses, in the order they were made. *)
Definition pacing (callee : str) (log : list event) : list event :=
  filter (fun e => is_pacing callee e = true) log.

(** [callee] is called for each of the [n] items in turn, and a pause of
    [pause x] seconds follows the item [x], for all but the last. *)
Definition paced_items {A} (callee : str) (n : Z) (pos : A -> Z)
    (pause : A -> Q) (items : list A) : list event :=
  flat_map (fun x => Call callee (pos x)
                       :: (if pos x <? n - 1 then [Sleep (pause x)] else []))
           items.

Definition paced (callee : str) (n : Z) (pause : Z -> Q) : list event :=
  paced_items callee n (fun k => k) pause (indices n).

(** The computation raises when started in state [s]. *)
Definition raises {S A} (m : M S A) (s : S) : bool :=
  match snd (m s) with
  | Raise _ => true
  | Return _ => false
  end.

(** The pause after an item: the delay, doubled when its processing
    raised. *)
Definition pause_for (delay_seconds : Q) (raised : bool) : Q :=
  if raised then (delay_seconds * 2)%Q else delay_seconds.

End SpecTrace.

(** What one iteration of [run_benchmark_test] leaves behind. *)

Module BenchmarkingSpec.

Import Benchmarking SpecTrace.

(** The entry of a run that raised [e]: value "ERROR", confidence 0,
    elapsed time 0, and the message. *)
Definition error_record (i : Z) (e : exn) : run_record :=
  {| run := i + 1; value := py "ERROR"; confidence := 0; time_ms := 0;
     num_chunks := 0; error := Some e |}.

Section Harness.

Context {chunk : Type}.
Variable extractor : Z -> str -> outcome (str * Q * list chunk).
Variable elapsed_time : Z -> Q.
Variable round2 : Q -> Q.
Variable progress_callback : bool.
Variable query : str.
Variable num_runs : Z.
Variable delay_seconds : Q.

(** The entry of the run at position [i]. *)
Definition record_of (i : Z) : run_record :=
  match extractor i query with
  | Return (extracted_value, confidence, chunks) =>
      {| run := i + 1; value := extracted_value;
         confidence := confidence;
         time_ms := round2 (elapsed_time i * 1000);
         num_chunks := len chunks; error := None |}
  | Raise e => error_record i e
  end.

(** The extractor raised in the run at position [i]. *)
Definition run_raised (i : Z) : bool :=
  match extractor i query with Raise _ => true | Return _ => false end.

(** The calls made in the run at position [i]. *)
Definition events_of (i : Z) : list event :=
  (if progress_callback
   then [Progress i num_runs (Running (i + 1) num_runs)] else [])
  ++ Call (py "extractor") i
  :: (if i <? num_runs - 1
      then (if progress_callback && negb (run_raised i)
            then [Progress i num_runs (Waiting delay_seconds)] else [])
           ++ [Sleep (pause_for delay_seconds (run_raised i))]
      else []).

End Harness.

End BenchmarkingSpec.

(** The entries of the fields whose processing raised. *)

Module BatchSpec.

Definition extraction_error (entry : Z * Extraction.field) (e : exn)
  : Extraction.field_result :=
  {| Extraction.field_name := Extraction.field_name_of entry;
     Extraction.value := py "ERROR";
     Extraction.confidence := 0;
     Extraction.reasoning := e;
     Extraction.query := Extraction.field_query_of entry |}.

Definition rag_error (entry : Z * Extraction.field) (e : exn)
  : FlowComparison.field_result :=
  {| FlowComparison.field_name := FlowComparison.rag_name_of entry;
     FlowComparison.value := py "ERROR";
     FlowComparison.confidence := 0;
     FlowComparison.confidence_reason := FlowComparison.JStr e;
     FlowComparison.source := py "rag";
     FlowComparison.chunks_used := None;
     FlowComparison.error := Some e |}.

(** What the body of a batch loop owes for one field. *)
Definition item_ok {R T : Type}
    (attempt : Z * Extraction.field -> M (state R T) unit)
    (name : R -> str) (name_of : Z * Extraction.field -> str)
    (error_entry : Z * Extraction.field -> exn -> R)
    (entry : Z * Extraction.field) (r : R) : Prop :=
  name r = name_of entry
  /\ forall s e, snd (attempt entry s) = Raise e -> r = error_entry entry e.

(** A batch over [fields] went through: it returned [records], one per
    field and in their order, each with the name of its field; a field
    whose processing (the body of the [try], started in whatever state)
    raised [e] has the error entry; the retriever was called for every
    field in turn, and the pause after each field but the last was the
    delay, doubled when the processing of that field raised. *)
Definition batch_complete {R T : Type}
    (attempt : Z * Extraction.field -> M (state R T) unit)
    (initial : state R T)
    (name : R -> str) (name_of : Z * Extraction.field -> str)
    (error_entry : Z * Extraction.field -> exn -> R)
    (fields : list Extraction.field) (delay_seconds : Q)
    (returned : outcome (list R)) (calls : list event) : Prop :=
  exists records : list R,
    returned = Return records
    /\ length records = length fields
    /\ map name records = map name_of (enumerate fields)
    /\ (forall (k : nat) field e s,
          fields !! k = Some field ->
          snd (attempt (Z.of_nat k, field) s) = Raise e ->
          records !! k = Some (error_entry (Z.of_nat k, field) e))
    /\ SpecTrace.pacing (py "retriever") calls
       = SpecTrace.paced_items (py "retriever") (len fields) fst
           (fun entry =>
              SpecTrace.pause_for delay_seconds
                (SpecTrace.raises (attempt entry) initial))
           (enumerate fields).

End BatchSpec.

(** The vocabulary for the index cache. *)

Module IndexPersistenceSpec.

(** The hexadecimal digits of [hexdigest]. *)
Definition hex_digits : str := py "0123456789abcdef".

End IndexPersistenceSpec.

(** Stand-ins for the collaborators, for the examples. *)

Module Examples.

(** A tokenizer with one token per character, and its decoder. *)
Definition char_tokens (text : str) : list ascii := text.
Definition char_text (tokens : list ascii) : str := tokens.

(** A sentence splitter that takes the text as one sentence, and one
    that cuts at vertical bars. *)
Definition one_sentence (text : str) : list str := [text].
Definition bar_sentences (text : str) : list str := split_on (py "|") text.

(** Reading a result. *)
Definition show (s : str) : string := string_of_list_ascii s.

Definition blank_line : str := [ascii_of_N 10; ascii_of_N 10].

(** A retriever that finds one chunk, and fails for the third field. *)
Definition flaky_retriever (i : Z) (query : str)
  : outcome (list Extraction.retrieved) :=
  if i =? 2 then Raise (py "index unavailable")
  else Return [ {| Extraction.chunk := py "Invoice Date: 2024-01-15";
                   Extraction.distance := 0.25%Q;
                   Extraction.chunk_confidence := 87.5%Q |} ].

(** A language model that answers in a code fence, and a decoder that
    knows its answer. *)
Definition answer : str :=
  py "```json{" ++ FlowComparison.dq ++ py "value" ++ FlowComparison.dq
    ++ py ":" ++ FlowComparison.dq ++ py "2024-01-15" ++ FlowComparison.dq
    ++ py "}```".

Definition fenced_model (i : Z) (prompt : str) : outcome str :=
  if i =? 1 then Raise (py "429 RESOURCE_EXHAUSTED") else Return answer.

Definition toy_loads (text : str) : option FlowComparison.json :=
  if startswith (py "{") text
  then Some (FlowComparison.JObj
               [(py "value", FlowComparison.JStr (py "2024-01-15"));
                (py "confidence", FlowComparison.JInt 95)])
  else None.

Definition toy_str (v : FlowComparison.json) : str :=
  match v with
  | FlowComparison.JStr s => s
  | FlowComparison.JInt n => str_of_Z n
  | _ => py "?"
  end.

Definition toy_float (v : FlowComparison.json) : outcome Q :=
  match v with
  | FlowComparison.JInt n => Return (inject_Z n)
  | FlowComparison.JFloat q => Return q
  | _ => Raise (py "float() argument must be a string or a real number")
  end.

(** Three fields: the first names itself, the others do not. *)
Definition three_fields : list Extraction.field :=
  [ {[ py "field_name" := py "Invoice Date";
       py "query" := py "What is the invoice date?" ]};
    ∅;
    {[ py "query" := py "Who is the vendor?" ]} ].

(** Three chunks, their embeddings, and an index search that reports
    what a flat L2 index reports for the query embedding (1, 0). *)
Definition three_chunks : list str :=
  [ py "Invoice Date: 2024-01-15"; py "Vendor: Acme Corp";
    py "Total: 100" ].

Definition three_rows : list Retrieval.vector :=
  [ [1; 0]; [0; 1]; [3 # 5; 4 # 5] ]%Q.

Definition unit_query (query : str) : Retrieval.vector := [1; 0]%Q.

Definition table_search (q : Retrieval.vector) (top_k : Z)
  : list Q * list Z :=
  (take (Z.to_nat top_k)
     (map (RetrievalSpec.sq_l2 q)
        [ [1; 0]; [3 # 5; 4 # 5]; [0; 1] ]%Q),
   take (Z.to_nat top_k) [0; 2; 1]).

(** An extractor that finds a date, and times out in its second call. *)
Definition flaky_extractor (i : Z) (query : str)
  : outcome (str * Q * list str) :=
  if i =? 1 then Raise (py "timed out")
  else Return (py "2024-01-15", 90%Q, [py "Invoice Date: 2024-01-15"]).

End Examples.

(** ** Part III.  Facts *)

Import SpecWords SpecTrace.

Module StrFacts.

Import WordAux.


Lemma startswith_app p s : startswith p (p ++ s) = true.
Proof.
  induction p as [|a p IH]; simpl; [done|].
  rewrite bool_decide_eq_true_2 by done. exact IH.
Qed.

Lemma startswith_inv p s :
  startswith p s = true -> exists post, s = p ++ post.
Proof.
  revert s. induction p as [|a p IH]; intros s H; simpl in *.
  - by exists s.
  - destruct s as [|b s]; [done|].
    apply andb_prop in H as [Hab Hp].
    apply bool_decide_eq_true_1 in Hab as ->.
    destruct (IH _ Hp) as [post ->]. by exists post.
Qed.

Lemma contains_here sub s : startswith sub s = true -> contains sub s = true.
Proof. intros H. destruct s; simpl in *; by rewrite H. Qed.

Lemma contains_Substring sub s :
  contains sub s = true <-> Substring sub s.
Proof.
  split.
  - induction s as [|c s IH]; simpl; intros H.
    + rewrite orb_false_r in H.
      destruct (startswith_inv _ _ H) as [post ->]. by exists [], post.
    + apply orb_prop in H as [H|H].
      * destruct (startswith_inv _ _ H) as [post Hp].
        exists [], post. by rewrite Hp.
      * destruct (IH H) as (pre & post & ->). by exists (c :: pre), post.
  - intros (pre & post & ->).
    induction pre as [|c pre IH]; simpl.
    + apply contains_here, startswith_app.
    + rewrite IH. apply orb_true_r.
Qed.

Lemma Substring_nil s : Substring [] s.
Proof. by exists [], s. Qed.

Lemma Substring_rev sub s : Substring sub s -> Substring (rev sub) (rev s).
Proof.
  intros (pre & post & ->). exists (rev post), (rev pre).
  by rewrite !rev_app_distr, app_assoc.
Qed.


#[local] Abbreviation nonspace := (fun c : ascii => isspace c = false).
#[local] Abbreviation space := (fun c : ascii => isspace c = true).

Lemma word_split s : s = word_prefix s ++ word_rest s.
Proof.
  induction s as [|c s IH]; simpl; [done|].
  destruct (isspace c); simpl; [done|]. by rewrite <- IH.
Qed.

Lemma word_prefix_nonspace s : Forall nonspace (word_prefix s).
Proof.
  induction s as [|c s IH]; simpl; [constructor|].
  destruct (isspace c) eqn:E; by constructor.
Qed.

Lemma word_rest_ends s : ends_here (word_rest s).
Proof.
  induction s as [|c s IH]; simpl; [done|].
  destruct (isspace c) eqn:E; simpl; done.
Qed.

Lemma word_rest_length s : (length (word_rest s) <= length s)%nat.
Proof.
  induction s as [|c s IH]; simpl; [lia|].
  destruct (isspace c); simpl; lia.
Qed.

Lemma split_ws_space c s : isspace c = true -> split_ws (c :: s) = split_ws s.
Proof. intros H. simpl. by rewrite H. Qed.

Lemma split_ws_word c s :
  isspace c = false ->
  split_ws (c :: s) = (c :: word_prefix s) :: split_ws (word_rest s).
Proof.
  revert c. induction s as [|d s IH]; intros c Hc.
  - simpl. by rewrite Hc.
  - change (split_ws (c :: d :: s))
      with (if isspace c then split_ws (d :: s)
            else if isspace d then [c] :: split_ws (d :: s)
                 else match split_ws (d :: s) with
                      | w :: ws => (c :: w) :: ws
                      | [] => [[c]]
                      end).
    rewrite Hc. simpl word_prefix. simpl word_rest.
    destruct (isspace d) eqn:Hd; [done|].
    by rewrite (IH d Hd).
Qed.

Lemma word_prefix_app w post :
  Forall nonspace w -> ends_here post -> word_prefix (w ++ post) = w.
Proof.
  intros Hw Hp. induction Hw as [|c w Hc Hw IH]; simpl.
  - destruct post as [|d post]; simpl in *; [done|]. by rewrite Hp.
  - by rewrite Hc, IH.
Qed.

Lemma ends_here_app a b : a <> [] -> ends_here (a ++ b) <-> ends_here a.
Proof. by destruct a. Qed.

Lemma starts_here_cons c pre :
  pre <> [] -> starts_here (c :: pre) <-> starts_here pre.
Proof.
  intros Hne. unfold starts_here. simpl.
  apply ends_here_app. intros E. apply Hne.
  by rewrite <- (rev_involutive pre), E.
Qed.

Lemma starts_here_single c : starts_here [c] <-> isspace c = true.
Proof. done. Qed.

Lemma starts_here_app a b : b <> [] -> starts_here (a ++ b) <-> starts_here b.
Proof.
  intros Hne. unfold starts_here. rewrite rev_app_distr.
  apply ends_here_app. intros E. apply Hne.
  by rewrite <- (rev_involutive b), E.
Qed.

Lemma nonspace_not_ends c w post :
  isspace c = false -> ~ ends_here ((c :: w) ++ post).
Proof. simpl. congruence. Qed.

Lemma split_ws_sound_aux n :
  forall s, (length s <= n)%nat ->
  forall w, w ∈ split_ws s -> WordOf w s.
Proof.
  induction n as [|n IH]; intros s Hlen w Hin.
  - destruct s; [|simpl in Hlen; lia]. simpl in Hin.
    by apply elem_of_nil in Hin.
  - destruct s as [|c s]; [simpl in Hin; by apply elem_of_nil in Hin|].
    simpl in Hlen.
    destruct (isspace c) eqn:Hc.
    + rewrite split_ws_space in Hin by done.
      destruct (IH s ltac:(lia) w Hin)
        as (Hne & Hns & pre & post & -> & Hpre & Hpost).
      split; [done|]. split; [done|].
      exists (c :: pre), post. split; [done|]. split; [|done].
      destruct pre as [|p pre]; [done|].
      by apply starts_here_cons.
    + rewrite split_ws_word in Hin by done.
      apply elem_of_cons in Hin as [->|Hin].
      * split; [done|].
        split; [constructor; [done|apply word_prefix_nonspace]|].
        exists [], (word_rest s). split; [|split; [done|apply word_rest_ends]].
        simpl. by rewrite <- word_split.
      * pose proof (word_rest_length s) as Hl.
        destruct (IH (word_rest s) ltac:(lia) w Hin)
          as (Hne & Hns & pre & post & Heq & Hpre & Hpost).
        split; [done|]. split; [done|].
        exists (c :: word_prefix s ++ pre), post.
        split.
        { rewrite (word_split s) at 1. rewrite Heq. simpl.
          by rewrite <- !app_assoc. }
        split; [|done].
        destruct pre as [|p pre].
        { exfalso. pose proof (word_rest_ends s) as He.
          rewrite Heq in He. simpl in He.
          destruct w as [|a w]; [done|].
          apply Forall_cons in Hns as [Ha _]. simpl in He. congruence. }
        change (c :: word_prefix s ++ p :: pre)
          with ((c :: word_prefix s) ++ p :: pre).
        by apply starts_here_app.
Qed.

Lemma word_rest_pre pre t :
  pre <> [] -> starts_here pre ->
  exists q, word_rest (pre ++ t) = q ++ t /\ starts_here q.
Proof.
  induction pre as [|a pre IH]; intros Hne Hs; [done|].
  simpl. destruct (isspace a) eqn:Ha.
  - by exists (a :: pre).
  - destruct pre as [|b pre]; [apply starts_here_single in Hs; congruence|].
    apply IH; [done|]. by apply starts_here_cons in Hs.
Qed.

Lemma split_ws_complete_aux n :
  forall s, (length s <= n)%nat ->
  forall w, WordOf w s -> w ∈ split_ws s.
Proof.
  induction n as [|n IH];
    intros s Hlen w (Hne & Hns & pre & post & Heq & Hpre & Hpost).
  - destruct s; [|simpl in Hlen; lia].
    destruct pre, w; simpl in *; done.
  - destruct s as [|c s]; [destruct pre, w; simpl in *; done|].
    simpl in Hlen.
    destruct pre as [|p pre].
    + destruct w as [|a w]; [done|]. simpl in Heq.
      injection Heq as -> ->.
      apply Forall_cons in Hns as [Ha Hw].
      rewrite split_ws_word by done.
      rewrite word_prefix_app by done. apply list_elem_of_here.
    + simpl in Heq. injection Heq as -> ->.
      destruct (isspace p) eqn:Hp.
      * rewrite split_ws_space by done.
        apply IH; [lia|].
        split; [done|]. split; [done|].
        exists pre, post. split; [done|]. split; [|done].
        destruct pre as [|b pre]; [done|].
        by apply starts_here_cons in Hpre.
      * rewrite split_ws_word by done.
        apply list_elem_of_further.
        destruct pre as [|b pre];
          [apply starts_here_single in Hpre; congruence|].
        apply starts_here_cons in Hpre; [|done].
        destruct (word_rest_pre (b :: pre) (w ++ post) ltac:(done) Hpre)
          as (q & Hq & Hqs).
        pose proof (word_rest_length ((b :: pre) ++ w ++ post)) as Hl.
        apply IH; [lia|].
        split; [done|]. split; [done|].
        exists q, post. by rewrite Hq.
Qed.

(** [s.split()] lists the whitespace-delimited words of [s]. *)
Lemma split_ws_WordOf w s : w ∈ split_ws s <-> WordOf w s.
Proof.
  split.
  - by apply (split_ws_sound_aux (length s)).
  - by apply (split_ws_complete_aux (length s)).
Qed.


(** *** Trimming *)

Lemma lstrip_decomp s : exists l, s = l ++ lstrip s /\ Forall space l.
Proof.
  induction s as [|c s (l & IH & Hl)]; simpl.
  - by exists [].
  - destruct (isspace c) eqn:Hc.
    + exists (c :: l). split; [by rewrite IH at 1|by constructor].
    + by exists [].
Qed.

Lemma strip_decomp s :
  exists l r, s = l ++ strip s ++ r /\ Forall space l /\ Forall space r.
Proof.
  destruct (lstrip_decomp s) as (l & Hs & Hl).
  destruct (lstrip_decomp (rev (lstrip s))) as (r & Hr & Hrs).
  exists l, (rev r). split; [|split; [done|by apply Forall_rev]].
  unfold strip, rstrip. rewrite <- rev_app_distr, <- Hr, rev_involutive.
  exact Hs.
Qed.

Lemma Substring_skip_l w l t :
  Forall space l -> w <> [] -> Forall nonspace w ->
  Substring w (l ++ t) -> Substring w t.
Proof.
  intros Hl Hne Hw. induction Hl as [|c l Hc Hl IH]; [done|].
  intros (pre & post & Heq). apply IH.
  destruct pre as [|p pre].
  - destruct w as [|a w]; [done|]. simpl in Heq. injection Heq as <- _.
    apply Forall_cons in Hw as [Ha _]. congruence.
  - simpl in Heq. injection Heq as _ ->. by exists pre, post.
Qed.

Lemma Substring_skip_r w r t :
  Forall space r -> w <> [] -> Forall nonspace w ->
  Substring w (t ++ r) -> Substring w t.
Proof.
  intros Hr Hne Hw H. apply Substring_rev in H.
  rewrite rev_app_distr in H.
  apply Substring_skip_l in H.
  - apply Substring_rev in H. by rewrite !rev_involutive in H.
  - by apply Forall_rev.
  - intros E. apply Hne. by rewrite <- (rev_involutive w), E.
  - by apply Forall_rev.
Qed.

Lemma Substring_widen w l t r : Substring w t -> Substring w (l ++ t ++ r).
Proof.
  intros (pre & post & ->). exists (l ++ pre), (post ++ r).
  by rewrite <- !app_assoc.
Qed.

(** A word occurs in a string exactly when it occurs in the trimmed
    string. *)
Lemma Substring_strip w s :
  w <> [] -> Forall nonspace w ->
  Substring w (strip s) <-> Substring w s.
Proof.
  intros Hne Hw. destruct (strip_decomp s) as (l & r & Hs & Hl & Hr).
  split.
  - intros H. rewrite Hs. by apply Substring_widen.
  - intros H. rewrite Hs in H.
    apply Substring_skip_l in H; [|done..].
    by apply Substring_skip_r in H.
Qed.

Lemma split_ws_skip_l l t : Forall space l -> split_ws (l ++ t) = split_ws t.
Proof.
  intros Hl. induction Hl as [|c l Hc Hl IH]; [done|].
  simpl app. by rewrite split_ws_space.
Qed.

Lemma WordOf_rev w s : WordOf w s -> WordOf (rev w) (rev s).
Proof.
  intros (Hne & Hns & pre & post & -> & Hpre & Hpost).
  split; [|split; [by apply Forall_rev|]].
  - intros E. apply Hne. by rewrite <- (rev_involutive w), E.
  - exists (rev post), (rev pre). split; [|split].
    + by rewrite !rev_app_distr, app_assoc.
    + unfold starts_here. by rewrite rev_involutive.
    + exact Hpre.
Qed.

Lemma WordOf_skip_l w l t : Forall space l -> WordOf w (l ++ t) <-> WordOf w t.
Proof.
  intros Hl. by rewrite <- !split_ws_WordOf, split_ws_skip_l.
Qed.

Lemma WordOf_skip_r w r t : Forall space r -> WordOf w (t ++ r) <-> WordOf w t.
Proof.
  intros Hr. split; intros H; apply WordOf_rev in H.
  - rewrite rev_app_distr in H.
    apply WordOf_skip_l in H; [|by apply Forall_rev].
    apply WordOf_rev in H. by rewrite !rev_involutive in H.
  - apply (WordOf_skip_l _ (rev r)) in H; [|by apply Forall_rev].
    rewrite <- rev_app_distr in H.
    apply WordOf_rev in H. by rewrite !rev_involutive in H.
Qed.

(** Trimming a string keeps its words. *)
Lemma WordOf_strip w s : WordOf w (strip s) <-> WordOf w s.
Proof.
  destruct (strip_decomp s) as (l & r & Hs & Hl & Hr).
  rewrite Hs at 2. by rewrite WordOf_skip_l, WordOf_skip_r.
Qed.

Lemma existsb_elem_of {A} (f : A -> bool) l :
  existsb f l = true <-> exists x, x ∈ l /\ f x = true.
Proof.
  rewrite existsb_exists. by setoid_rewrite list_elem_of_In.
Qed.

(** The test of the fuzzy rule, on the trimmed strings as the code makes
    it, against its reading on the untrimmed ones. *)
Lemma shares_word_test extracted master :
  existsb (fun word => contains word (norm extracted))
          (split_ws (norm master)) = true
  <-> shares_word extracted master.
Proof.
  rewrite existsb_elem_of. unfold shares_word, norm.
  split; intros (w & Hw & Hs); exists w.
  - rewrite split_ws_WordOf, WordOf_strip in Hw.
    rewrite contains_Substring in Hs.
    pose proof Hw as (Hne & Hns & _).
    rewrite Substring_strip in Hs by done.
    by split.
  - pose proof Hw as (Hne & Hns & _).
    rewrite split_ws_WordOf, WordOf_strip, contains_Substring.
    rewrite Substring_strip by done.
    by split.
Qed.

End StrFacts.

Module ScorerFacts.

Import Scorer ScorerSpec StrFacts.

Lemma master_missing_test master :
  negb (truthy master) || bool_decide (lower master = py "n/a") = true
  <-> master_missing master.
Proof.
  unfold master_missing. rewrite orb_true_iff, bool_decide_eq_true.
  destruct master; simpl; intuition congruence.
Qed.

Lemma one_contains_test a b :
  contains a b || contains b a = true <-> one_contains a b.
Proof.
  unfold one_contains. by rewrite orb_true_iff, !contains_Substring.
Qed.

(** Turn the outcome [E] of a boolean test of the code into the
    proposition it decides. *)
Ltac decided E lem :=
  first [ rewrite lem in E
        | apply not_true_iff_false in E; rewrite lem in E ].

(** C1.  For every extracted string and master string, the match
    classification of the Scorer follows the rules of the specification
    in their order: ("N/A", 0) when the master is empty or is "n/a" in
    whatever case; otherwise ("exact", 100) when the trimmed lowercased
    strings are equal; otherwise ("partial", 70) when one of these two
    strings contains the other; otherwise ("fuzzy", 40) when a
    whitespace-delimited word of the lowercased master occurs in the
    lowercased extracted string; otherwise ("mismatch", 0).  The rules
    determine the result, and [calc_match] computes it. *)
Theorem calc_match_rules (extracted master : str) (result : str * Z) :
  match_rule extracted master result
  <-> calc_match extracted master = result.
Proof.
  unfold calc_match. fold (norm extracted) (norm master).
  destruct (negb (truthy master) || bool_decide (lower master = py "n/a"))
    eqn:Hna; decided Hna master_missing_test.
  2: destruct (bool_decide (norm extracted = norm master)) eqn:Heq;
     decided Heq (bool_decide_eq_true (norm extracted = norm master)).
  3: destruct (contains (norm master) (norm extracted)
               || contains (norm extracted) (norm master)) eqn:Hsub;
     decided Hsub one_contains_test.
  4: destruct (existsb (fun word => contains word (norm extracted))
                 (split_ws (norm master))) eqn:Hw;
     decided Hw shares_word_test.
  all: split; [ inversion 1; subst; try done | intros <-; by constructor ].
Qed.


(** *** The hallucination score *)

Lemma nothing_extracted_test extracted :
  bool_decide (extracted ∈ [py "N/A"; py "ERROR"; py ""]) = true
  <-> nothing_extracted extracted.
Proof.
  unfold nothing_extracted.
  rewrite bool_decide_eq_true, !elem_of_cons, elem_of_nil. tauto.
Qed.

Lemma master_lower_norm master :
  (if truthy master then strip (lower master) else py "") = norm master.
Proof. by destruct master. Qed.

Lemma words_norm w s :
  w ∈ (list_to_set (split_ws (norm s)) : gset str) <-> WordOf w (lower s).
Proof.
  unfold norm. by rewrite elem_of_list_to_set, split_ws_WordOf, WordOf_strip.
Qed.

Lemma words_lower w s :
  w ∈ (list_to_set (split_ws (lower s)) : gset str) <-> WordOf w (lower s).
Proof. by rewrite elem_of_list_to_set, split_ws_WordOf. Qed.

(** The size of a set is the number of strings that belong to it. *)
Lemma Counts_size (P : str -> Prop) (X : gset str) n :
  (forall w, w ∈ X <-> P w) -> Counts P n <-> n = size X.
Proof.
  intros HX. split.
  - intros (ws & Hnd & Hws & <-).
    apply Permutation_length, NoDup_Permutation.
    + done.
    + apply NoDup_elements.
    + intros w. by rewrite elem_of_elements, HX, Hws.
  - intros ->. exists (elements X). split; [apply NoDup_elements|].
    split; [|done]. intros w. by rewrite elem_of_elements.
Qed.

Lemma overlap_guard (E C : gset str) :
  (if bool_decide (E = ∅) then 0%Q
   else (inject_Z (Z.of_nat (size (E ∩ C)))
         / inject_Z (Z.of_nat (size E)))%Q)
  = (inject_Z (Z.of_nat (size (E ∩ C))) / inject_Z (Z.of_nat (size E)))%Q.
Proof.
  case_bool_decide as HE; [|done].
  subst E. by rewrite (left_absorb_L ∅ (∩)), size_empty.
Qed.

Lemma overlap_ratio_of extracted context r :
  overlap_ratio extracted context r <-> r = overlap_of extracted context.
Proof.
  unfold overlap_ratio, overlap_of.
  split.
  - intros (both & all & Hb & Ha & ->).
    apply (Counts_size _ (list_to_set (split_ws (norm extracted))
                            ∩ list_to_set (split_ws (lower context)))) in Hb.
    2: { intros w. by rewrite elem_of_intersection, words_norm, words_lower. }
    apply (Counts_size _ (list_to_set (split_ws (norm extracted)))) in Ha.
    2: { intros w. by rewrite words_norm. }
    by subst.
  - intros ->.
    set (E := list_to_set (split_ws (norm extracted)) : gset str).
    set (C := list_to_set (split_ws (lower context)) : gset str).
    exists (size (E ∩ C)), (size E). split; [|split; [|done]].
    + apply (Counts_size _ (E ∩ C)); [|done].
      intros w. unfold E, C.
      by rewrite elem_of_intersection, words_norm, words_lower.
    + apply (Counts_size _ E); [|done]. intros w. unfold E.
      by rewrite words_norm.
Qed.

Lemma Qgtb_lt x y : Qgtb x y = true <-> (y < x)%Q.
Proof.
  unfold Qgtb. rewrite negb_true_iff, <- not_true_iff_false, Qle_bool_iff.
  split; [apply Qnot_le_lt | apply Qlt_not_le].
Qed.

Lemma ratio_step_of r score : ratio_step r score <-> step_of r = score.
Proof.
  unfold step_of.
  destruct (Qgtb r (8 # 10)) eqn:H8; decided H8 Qgtb_lt.
  2: destruct (Qgtb r (5 # 10)) eqn:H5; decided H5 Qgtb_lt.
  3: destruct (Qgtb r (2 # 10)) eqn:H2; decided H2 Qgtb_lt.
  all: split; [ inversion 1; subst; try done | intros <-; by constructor ].
  all: lra.
Qed.

Lemma step_of_range r : 0 <= step_of r <= 80.
Proof.
  unfold step_of.
  destruct (Qgtb r (8 # 10)), (Qgtb r (5 # 10)), (Qgtb r (2 # 10)); lia.
Qed.

(** C2, amended.  For all extracted, master and context strings the
    hallucination score follows these rules in their order: 0 when the
    extracted value is "", "N/A" or "ERROR"; otherwise 0 when it equals
    the master once both are trimmed and lowercased; otherwise 10 when the
    trimmed lowercased extracted value occurs in the lowercased context;
    otherwise, with r the number of different words of the extracted value
    that are words of the context over the number of different words of
    the extracted value, 20 when r > 0.8, 40 when r > 0.5, 60 when
    r > 0.2 and 80 in the remaining case.  The rules determine the score,
    which is an integer between 0 and 80. *)
Theorem hallucination_score_rules (extracted master context : str) :
  (forall score : Z,
     hallucination_rule extracted master context score
     <-> calculate_hallucination_score extracted master context = score)
  /\ 0 <= calculate_hallucination_score extracted master context <= 80.
Proof.
  unfold calculate_hallucination_score.
  rewrite master_lower_norm, overlap_guard.
  fold (norm extracted) (overlap_of extracted context).
  fold (step_of (overlap_of extracted context)).
  destruct (bool_decide (extracted ∈ [py "N/A"; py "ERROR"; py ""]))
    eqn:Hno; decided Hno nothing_extracted_test.
  2: destruct (bool_decide (norm extracted = norm master)) eqn:Heq;
     decided Heq (bool_decide_eq_true (norm extracted = norm master)).
  3: destruct (contains (norm extracted) (lower context)) eqn:Hsub;
     decided Hsub contains_Substring.
  all: split; [|first [lia | apply step_of_range]].
  all: intros score; split;
    [ inversion 1; subst; try done | intros <-; try by constructor ].
  - match goal with
    | Hr : overlap_ratio _ _ _ |- _ => apply overlap_ratio_of in Hr; subst
    end.
    by apply ratio_step_of.
  - eapply halluc_ratio; [done..| |].
    + by apply overlap_ratio_of.
    + by apply ratio_step_of.
Qed.

(** C2, as stated, fails: it looks for the lowercased extracted value in
    the lowercased context, and the code looks for the trimmed one.  The
    value " foo " is not in the context "foo", so that the rules as stated
    go on to the words, which are all in the context, and give 20, and
    they give nothing else; the code finds "foo" and returns 10. *)
Lemma hallucination_untrimmed_differs :
  hallucination_rule_untrimmed (py " foo ") (py "x") (py "foo") 20
  /\ ~ hallucination_rule_untrimmed (py " foo ") (py "x") (py "foo") 10
  /\ calculate_hallucination_score (py " foo ") (py "x") (py "foo") = 10.
Proof.
  assert (Hsome : ~ nothing_extracted (py " foo ")).
  { intros [H|[H|H]]; discriminate H. }
  assert (Hmaster : norm (py " foo ") <> norm (py "x")).
  { vm_compute. discriminate. }
  assert (Hout : ~ Substring (lower (py " foo ")) (lower (py "foo"))).
  { rewrite <- contains_Substring. vm_compute. discriminate. }
  split; [|split].
  - eapply untrimmed_ratio; [done..| |].
    + by apply overlap_ratio_of.
    + apply ratio_step_of. vm_compute. reflexivity.
  - inversion 1 as [| | |r score _ _ _ _ Hstep]; subst; try done.
    inversion Hstep.
  - vm_compute. reflexivity.
Qed.

End ScorerFacts.

Module EffFacts.

Section Loop.

Context {R T A : Type}.
Variable body : A -> M (state R T) unit.
Variable record_of : A -> R.
Variable events_of : A -> list event.

Hypothesis body_appends : forall x s, exists t,
  body x s = ({| results := results s ++ [record_of x];
                 tracker := t;
                 log := log s ++ events_of x |}, Return tt).

(** A loop whose body appends one result and never raises returns one
    result per item, in order. *)
Lemma for_each_appends l : forall s, exists t,
  for_each l body s = ({| results := results s ++ map record_of l;
                          tracker := t;
                          log := log s ++ flat_map events_of l |},
                       Return tt).
Proof.
  induction l as [|x l IH]; intros s; simpl.
  - exists (tracker s). unfold ret. rewrite !app_nil_r. by destruct s.
  - unfold bind. destruct (body_appends x s) as [t ->].
    destruct (IH {| results := results s ++ [record_of x]; tracker := t;
                    log := log s ++ events_of x |}) as [t' ->].
    exists t'. simpl. by rewrite <- !app_assoc.
Qed.

End Loop.

Section Items.

Context {R T A : Type}.
Variable body : A -> M (state R T) unit.
Variable ok : A -> R -> Prop.
Variable callee : str.
Variable trace : A -> list event.

Hypothesis body_item : forall x s, exists r evs t,
  body x s = ({| results := results s ++ [r]; tracker := t;
                 log := log s ++ evs |}, Return tt)
  /\ ok x r /\ pacing callee evs = trace x.

(** A loop whose body appends one result and never raises returns one
    result per item, each as its item demands. *)
Lemma for_each_items l : forall s, exists rs evs t,
  for_each l body s = ({| results := results s ++ rs; tracker := t;
                          log := log s ++ evs |}, Return tt)
  /\ Forall2 ok l rs /\ pacing callee evs = flat_map trace l.
Proof.
  induction l as [|x l IH]; intros s; simpl.
  - exists [], [], (tracker s). unfold ret. rewrite !app_nil_r.
    split; [by destruct s|]. by split.
  - unfold bind.
    destruct (body_item x s) as (r & evs & t & -> & Hok & Htr).
    destruct (IH {| results := results s ++ [r]; tracker := t;
                    log := log s ++ evs |})
      as (rs & evs' & t' & -> & Hoks & Htrs).
    exists (r :: rs), (evs ++ evs'), t'. simpl.
    rewrite <- !app_assoc. split; [done|]. split; [by constructor|].
    unfold pacing in *. by rewrite filter_app, Htr, Htrs.
Qed.

End Items.

Lemma range_up_indices fuel : forall i stop,
  stop - i <= Z.of_nat fuel ->
  range_up fuel i stop 1
  = map (fun k => i + Z.of_nat k) (seq 0 (Z.to_nat (stop - i))).
Proof.
  induction fuel as [|fuel IH]; intros i stop Hf; simpl.
  - replace (Z.to_nat (stop - i)) with 0%nat by lia. done.
  - destruct (i <? stop) eqn:Hi.
    + apply Z.ltb_lt in Hi.
      replace (Z.to_nat (stop - i)) with (S (Z.to_nat (stop - (i + 1)))) by lia.
      rewrite IH by lia. simpl. f_equal; [lia|].
      rewrite <- seq_shift, map_map. apply map_ext. intros k. lia.
    + apply Z.ltb_ge in Hi.
      replace (Z.to_nat (stop - i)) with 0%nat by lia. done.
Qed.

(** [range(n)] lists the positions 0 .. n-1. *)
Lemma range0_indices n : range0 n 1 = indices n.
Proof.
  unfold range0, indices. rewrite range_up_indices by lia.
  rewrite Z.sub_0_r. apply map_ext. intros k. lia.
Qed.

Lemma indices_length n : length (indices n) = Z.to_nat n.
Proof. unfold indices. by rewrite length_map, length_seq. Qed.

Lemma indices_lookup n (k : nat) :
  (k < Z.to_nat n)%nat -> indices n !! k = Some (Z.of_nat k).
Proof.
  intros Hk. unfold indices. rewrite list_lookup_fmap, lookup_seq_lt by done.
  done.
Qed.

Lemma indices_bound n k : k ∈ indices n -> 0 <= k < n.
Proof.
  unfold indices. rewrite list_elem_of_fmap. intros (j & -> & Hj).
  apply elem_of_seq in Hj. lia.
Qed.

(** [enumerate(l)] pairs each item with its position. *)
Lemma enumerate_from_fst {A} (l : list A) start :
  map fst (enumerate_from start l)
  = map (fun k => start + Z.of_nat k) (seq 0 (length l)).
Proof.
  revert start. induction l as [|x l IH]; intros start; simpl; [done|].
  f_equal; [lia|]. rewrite IH, <- seq_shift, map_map.
  apply map_ext. intros k. lia.
Qed.

Lemma enumerate_fst {A} (l : list A) : map fst (enumerate l) = indices (len l).
Proof.
  unfold enumerate, indices, len. rewrite enumerate_from_fst, Nat2Z.id.
  done.
Qed.

Lemma enumerate_from_snd {A} (l : list A) start :
  map snd (enumerate_from start l) = l.
Proof.
  revert start. induction l as [|x l IH]; intros start; simpl; [done|].
  by rewrite IH.
Qed.

Lemma enumerate_from_lookup {A} (l : list A) start (k : nat) x :
  l !! k = Some x ->
  enumerate_from start l !! k = Some (start + Z.of_nat k, x).
Proof.
  revert start k. induction l as [|y l IH]; intros start k Hk; [done|].
  destruct k as [|k]; simpl in *.
  - injection Hk as ->. do 2 f_equal. lia.
  - rewrite (IH _ _ Hk). do 2 f_equal. lia.
Qed.

Lemma enumerate_length {A} (l : list A) : length (enumerate l) = length l.
Proof.
  unfold enumerate. generalize 0. induction l; intros; simpl; [done|].
  by f_equal.
Qed.

(** *** Traces *)

Lemma sleeps_app l1 l2 : sleeps (l1 ++ l2) = sleeps l1 ++ sleeps l2.
Proof. apply omap_app. Qed.

Lemma pacing_app callee l1 l2 :
  pacing callee (l1 ++ l2) = pacing callee l1 ++ pacing callee l2.
Proof. apply filter_app. Qed.

Lemma pacing_flat_map {A} callee (f : A -> list event) l :
  pacing callee (flat_map f l) = flat_map (fun x => pacing callee (f x)) l.
Proof.
  induction l as [|x l IH]; simpl; [done|]. by rewrite pacing_app, IH.
Qed.

Lemma sleeps_pacing callee l : sleeps (pacing callee l) = sleeps l.
Proof.
  induction l as [|e l IH]; [done|].
  unfold pacing in *. rewrite filter_cons.
  destruct e; simpl; try case_decide; simpl; rewrite ?IH; try done.
  all: by destruct (decide _).
Qed.

End EffFacts.

Module BenchmarkingFacts.

Import Benchmarking BenchmarkingSpec EffFacts.

Section Harness.

Context {chunk : Type}.
Variable extractor : Z -> str -> outcome (str * Q * list chunk).
Variable elapsed_time : Z -> Q.
Variable round2 : Q -> Q.
Variable progress_callback : bool.
Variable query : str.
Variable num_runs : Z.
Variable delay_seconds : Q.

#[local] Abbreviation record_of :=
  (record_of extractor elapsed_time round2 query).
#[local] Abbreviation run_raised := (run_raised extractor query).
#[local] Abbreviation events_of :=
  (events_of extractor progress_callback query num_runs delay_seconds).

Lemma iteration_appends i s : exists t,
  iteration extractor elapsed_time round2 progress_callback
    query num_runs delay_seconds i s
  = ({| results := results s ++ [record_of i]; tracker := t;
        log := log s ++ events_of i |}, Return tt).
Proof.
  exists (tracker s).
  unfold iteration, try_run, except_run, BenchmarkingSpec.record_of,
    BenchmarkingSpec.events_of, BenchmarkingSpec.run_raised,
    error_record, invoke, try_except, bind, when, append, emit, modify,
    call, ret, pause_for.
  destruct progress_callback, (extractor i query) as [[[v c] ch]|e],
    (i <? num_runs - 1); simpl;
    rewrite <- ?app_assoc; simpl; try done.
  all: by destruct ch.
Qed.

Lemma run_benchmark_test_closed : exists t,
  for_each (range0 num_runs 1)
    (iteration extractor elapsed_time round2 progress_callback
       query num_runs delay_seconds)
    {| results := []; tracker := tt; log := [] |}
  = ({| results := map record_of (indices num_runs); tracker := t;
        log := flat_map events_of (indices num_runs) |}, Return tt).
Proof.
  rewrite range0_indices.
  destruct (for_each_appends _ _ _ iteration_appends (indices num_runs)
              {| results := []; tracker := tt; log := [] |}) as [t ->].
  by exists t.
Qed.

Lemma pacing_events_of i :
  pacing (py "extractor") (events_of i)
  = Call (py "extractor") i
    :: (if i <? num_runs - 1
        then [Sleep (pause_for delay_seconds (run_raised i))] else []).
Proof.
  unfold BenchmarkingSpec.events_of, pacing.
  destruct progress_callback, (run_raised i), (i <? num_runs - 1); done.
Qed.


Lemma paced_flat_map callee (n : Z) (pause : Z -> Q) (f : Z -> list event) :
  (forall i, pacing callee (f i)
             = Call callee i
               :: (if i <? n - 1 then [Sleep (pause i)] else [])) ->
  pacing callee (flat_map f (indices n)) = paced callee n pause.
Proof.
  intros Hf. rewrite pacing_flat_map. unfold paced, paced_items.
  induction (indices n) as [|i l IH]; simpl; [done|].
  by rewrite Hf, IH.
Qed.

Lemma sleeps_paced callee (n : Z) (pause : Z -> Q) d :
  (forall i, 0 <= i < n -> pause i = d) ->
  sleeps (paced callee n pause) = repeat d (Z.to_nat (n - 1)).
Proof.
  intros Hd. unfold paced, paced_items, indices.
  destruct (Z.to_nat n) as [|m] eqn:Hn.
  { replace (Z.to_nat (n - 1)) with 0%nat by lia. done. }
  replace (Z.to_nat (n - 1)) with m by lia.
  assert (Hle : (m <= Z.to_nat n - 1)%nat) by lia.
  rewrite seq_S, map_app, flat_map_app, sleeps_app. simpl.
  replace (Z.of_nat m <? n - 1) with false by (symmetry; apply Z.ltb_ge; lia).
  simpl. rewrite app_nil_r. clear Hn.
  induction m as [|m IH]; [done|].
  rewrite seq_S, map_app, flat_map_app, sleeps_app, IH by lia. simpl.
  replace (Z.of_nat m <? n - 1) with true by (symmetry; apply Z.ltb_lt; lia).
  simpl. rewrite Hd by lia.
  change [d] with (repeat d 1). rewrite <- repeat_app.
  by replace (m + 1)%nat with (S m) by lia.
Qed.

(** C7.  For every number of runs of at least 1, [run_benchmark_test]
    returns (it does not raise) a list of exactly [num_runs] records
    whose run indices are 1 .. [num_runs] in order; a run whose extractor
    call raises yields the record with value "ERROR", confidence 0,
    elapsed time 0 and the error message; the extractor is called for
    every run in turn and a pause follows every run but the last, of
    [delay_seconds] after a run that returned and of twice that after a
    run that raised; so when no run raises there are exactly
    [num_runs - 1] pauses, each of [delay_seconds]. *)
Theorem run_benchmark_test_complete :
  1 <= num_runs ->
  exists (records : list run_record) (calls : list event),
    run_benchmark_test extractor elapsed_time round2 progress_callback
      query num_runs delay_seconds = (Return records, calls)
    /\ len records = num_runs
    /\ map run records = map (fun i => i + 1) (indices num_runs)
    /\ (forall i e, 0 <= i < num_runs ->
          extractor i query = Raise e ->
          records !! Z.to_nat i = Some (error_record i e))
    /\ pacing (py "extractor") calls
       = paced (py "extractor") num_runs
           (fun i => pause_for delay_seconds (run_raised i))
    /\ ((forall i, 0 <= i < num_runs -> run_raised i = false) ->
        sleeps calls = repeat delay_seconds (Z.to_nat (num_runs - 1))).
Proof.
  intros Hn. unfold run_benchmark_test.
  destruct run_benchmark_test_closed as [t ->].
  eexists _, _. split; [reflexivity|]. simpl.
  split; [|split; [|split; [|split]]].
  - unfold len. rewrite length_map, indices_length. lia.
  - rewrite map_map. apply map_ext_in. intros i _.
    unfold BenchmarkingSpec.record_of.
    by destruct (extractor i query) as [[[v c] ch]|e].
  - intros i e Hi He.
    rewrite list_lookup_fmap, indices_lookup by lia. simpl.
    unfold BenchmarkingSpec.record_of. rewrite Z2Nat.id by lia.
    by rewrite He.
  - apply paced_flat_map, pacing_events_of.
  - intros Hok.
    rewrite <- (sleeps_pacing (py "extractor")).
    rewrite (paced_flat_map _ _
               (fun i => pause_for delay_seconds (run_raised i)))
      by apply pacing_events_of.
    apply sleeps_paced. intros i Hi. by rewrite Hok.
Qed.

End Harness.

End BenchmarkingFacts.

Module BatchFacts.

Import EffFacts BatchSpec.

Lemma Forall2_names {R T : Type}
    (attempt : Z * Extraction.field -> M (state R T) unit)
    (name : R -> str) name_of error_entry entries (rs : list R) :
  Forall2 (item_ok attempt name name_of error_entry) entries rs ->
  map name rs = map name_of entries.
Proof.
  induction 1 as [|entry r entries rs [Hn _] _ IH]; simpl; [done|].
  by rewrite Hn, IH.
Qed.

(** From one field to the batch. *)
Lemma batch_complete_intro {R T : Type}
    (body attempt : Z * Extraction.field -> M (state R T) unit)
    (t0 : T) (name : R -> str) name_of error_entry
    (fields : list Extraction.field) (delay_seconds : Q) :
  let initial := {| results := []; tracker := t0; log := [] |} in
  (forall entry s, exists r evs t,
      body entry s = ({| results := results s ++ [r]; tracker := t;
                         log := log s ++ evs |}, Return tt)
      /\ item_ok attempt name name_of error_entry entry r
      /\ pacing (py "retriever") evs
         = Call (py "retriever") (fst entry)
           :: (if fst entry <? len fields - 1
               then [Sleep (pause_for delay_seconds
                              (raises (attempt entry) initial))]
               else [])) ->
  exists s,
    for_each (enumerate fields) body initial = (s, Return tt)
    /\ batch_complete attempt initial name name_of error_entry
         fields delay_seconds (Return (results s)) (log s).
Proof.
  intros initial Hbody.
  destruct (for_each_items body _ (py "retriever") _ Hbody
              (enumerate fields) initial)
    as (rs & evs & t & Hrun & Hok & Htrace).
  eexists. split; [exact Hrun|]. simpl.
  exists rs. split; [done|].
  split; [by rewrite <- (Forall2_length _ _ _ Hok), enumerate_length|].
  split; [by eapply Forall2_names|].
  split; [|exact Htrace].
  intros k field e s Hk He.
  pose proof (enumerate_from_lookup fields 0 k field Hk) as Hentry.
  rewrite Z.add_0_l in Hentry.
  destruct (Forall2_lookup_l _ _ _ _ _ Hok Hentry) as (r & Hr & _ & Herr).
  rewrite Hr. f_equal. by eapply Herr.
Qed.

Section Extraction.

Import Extraction.

Variable retriever : Z -> str -> outcome (list retrieved).
Variable extract_field_value : Z -> str -> str -> outcome (str * Q * str).
Variable round1 : Q -> Q.
Variable progress_callback : bool.
Variable total : Z.
Variable delay_seconds : Q.

#[local] Abbreviation attempt :=
  (try_field retriever extract_field_value round1 total delay_seconds).

Lemma extract_one_item s0 entry s : exists r evs t,
  extract_one retriever extract_field_value round1 progress_callback
    total delay_seconds entry s
  = ({| results := results s ++ [r]; tracker := t;
        log := log s ++ evs |}, Return tt)
  /\ item_ok attempt field_name field_name_of extraction_error entry r
  /\ pacing (py "retriever") evs
     = Call (py "retriever") (fst entry)
       :: (if fst entry <? total - 1
           then [Sleep (pause_for delay_seconds
                          (raises (attempt entry) s0))]
           else []).
Proof.
  unfold item_ok, raises, extract_one, try_field, except_field,
    extraction_error, invoke, try_except, bind, when, append, emit,
    modify, call, ret, pause_for.
  destruct entry as [i field]. simpl fst.
  destruct progress_callback, (retriever i _) as [retrieved|e]; simpl.
  all: try destruct (extract_field_value i _ _) as [[[v c] r]|e]; simpl.
  all: destruct (i <? total - 1); simpl.
  all: eexists _, _, _; rewrite <- ?app_assoc;
    (split; [reflexivity|]); (split; [split; [done|]|done]).
  all: intros s' e' H; simpl in H; congruence.
Qed.

End Extraction.

Section Rag.

Import TokenCounter FlowComparison.

#[local] Arguments py : simpl never.

Context {token : Type}.
Variable encode : str -> list token.
Variable retriever : Z -> str -> outcome (list Extraction.retrieved).
Variable generate_content : Z -> str -> outcome str.
Variable json_loads : str -> option json.
Variable py_str : json -> str.
Variable py_float : json -> outcome Q.
Variable round1 : Q -> Q.
Variable progress_callback : bool.
Variable total : Z.
Variable delay_seconds : Q.

#[local] Abbreviation rag_attempt :=
  (try_rag_field encode retriever generate_content json_loads
     py_str py_float round1 total delay_seconds).

Lemma rag_one_item s0 entry s : exists r evs t,
  rag_one encode retriever generate_content json_loads py_str py_float
    round1 progress_callback total delay_seconds entry s
  = ({| results := results s ++ [r]; tracker := t;
        log := log s ++ evs |}, Return tt)
  /\ item_ok rag_attempt field_name rag_name_of rag_error entry r
  /\ pacing (py "retriever") evs
     = Call (py "retriever") (fst entry)
       :: (if fst entry <? total - 1
           then [Sleep (pause_for delay_seconds
                          (raises (rag_attempt entry) s0))]
           else []).
Proof.
  unfold item_ok, raises, rag_one, try_rag_field, except_rag_field,
    rag_error, invoke, try_except, bind, when,
    append, emit, track, modify, call, ret, pause_for.
  destruct entry as [i field]. cbn [fst snd].
  destruct progress_callback.
  all: destruct (retriever i _) as [retrieved|e];
    cbn [fst snd results tracker log].
  all: try (match goal with
            | |- context [generate_content ?a ?b] =>
                destruct (generate_content a b) as [response|e]
            end; cbn [fst snd results tracker log]).
  all: try (destruct (read_response _ _ _ response) as [[[v c] r]|e];
            cbn [fst snd results tracker log]).
  all: destruct (i <? total - 1); cbn [fst snd results tracker log].
  all: eexists _, _, _; rewrite <- ?app_assoc;
    (split; [reflexivity|]); (split; [split; [done|]|done]).
  all: intros s' e' H; cbn [fst snd results tracker log] in H;
    congruence.
Qed.

End Rag.

(** C8.  For every list of fields, [extract_all_fields] and
    [rag_extraction] return (they do not raise) exactly one record per
    field, in the order of the fields and under the name of each; a field
    whose processing raises is recorded with value "ERROR" and confidence 0
    (and the message), the fields after it are processed all the same (the
    retriever is called for every field in turn), and the pause after a
    field, made for all but the last, is the delay, doubled when the
    processing of that field raised. *)
Theorem batch_extraction_complete {token : Type}
    (encode : str -> list token)
    (retriever : Z -> str -> outcome (list Extraction.retrieved))
    (extract_field_value : Z -> str -> str -> outcome (str * Q * str))
    (generate_content : Z -> str -> outcome str)
    (json_loads : str -> option FlowComparison.json)
    (py_str : FlowComparison.json -> str)
    (py_float : FlowComparison.json -> outcome Q)
    (round1 : Q -> Q) (progress_callback : bool)
    (fields : list Extraction.field) (delay_seconds : Q) :
  (let run :=
     Extraction.extract_all_fields retriever extract_field_value round1
       progress_callback fields delay_seconds in
   batch_complete
     (Extraction.try_field retriever extract_field_value round1
        (len fields) delay_seconds)
     {| results := []; tracker := tt; log := [] |}
     Extraction.field_name Extraction.field_name_of extraction_error
     fields delay_seconds (fst run) (snd run))
  /\
  (let run :=
     FlowComparison.rag_extraction encode retriever generate_content
       json_loads py_str py_float round1 progress_callback
       fields delay_seconds in
   batch_complete
     (FlowComparison.try_rag_field encode retriever generate_content json_loads
        py_str py_float round1 (len fields) delay_seconds)
     {| results := []; tracker := TokenCounter.new_tracker; log := [] |}
     FlowComparison.field_name FlowComparison.rag_name_of rag_error
     fields delay_seconds (fst (fst run)) (snd run)).
Proof.
  split.
  - unfold Extraction.extract_all_fields.
    destruct (batch_complete_intro
                (Extraction.extract_one retriever extract_field_value
                   round1 progress_callback (len fields) delay_seconds)
                (Extraction.try_field retriever extract_field_value round1
                   (len fields) delay_seconds)
                tt Extraction.field_name Extraction.field_name_of
                extraction_error fields delay_seconds)
      as (s & Hrun & Hdone).
    { intros entry s. apply extract_one_item. }
    destruct fields as [|field fields'] eqn:Hf.
    + exists []. by repeat split.
    + rewrite <- Hf in *. rewrite Hrun. exact Hdone.
  - unfold FlowComparison.rag_extraction.
    destruct (batch_complete_intro
                (FlowComparison.rag_one encode retriever generate_content
                   json_loads py_str py_float round1 progress_callback
                   (len fields) delay_seconds)
                (FlowComparison.try_rag_field encode retriever generate_content
                   json_loads py_str py_float round1 (len fields)
                   delay_seconds)
                TokenCounter.new_tracker FlowComparison.field_name
                FlowComparison.rag_name_of rag_error fields delay_seconds)
      as (s & Hrun & Hdone).
    { intros entry s. apply rag_one_item. }
    rewrite Hrun. exact Hdone.
Qed.

End BatchFacts.

Module ChunkingFacts.

Import Chunking ChunkingSpec.

(** *** [range] and slices *)

Lemma ceil_step n step :
  0 < step -> 0 < n ->
  (n + step - 1) / step = 1 + (n - step + step - 1) / step.
Proof.
  intros Hs Hn.
  replace (n + step - 1) with ((n - step + step - 1) + 1 * step) by lia.
  rewrite Z.div_add by lia. lia.
Qed.

Lemma range_up_multiples fuel : forall i stop step,
  0 < step -> stop - i <= Z.of_nat fuel ->
  range_up fuel i stop step
  = map (fun k => i + Z.of_nat k * step)
        (seq 0 (Z.to_nat ((stop - i + step - 1) / step))).
Proof.
  induction fuel as [|fuel IH]; intros i stop step Hs Hf; simpl.
  - replace (Z.to_nat _) with 0%nat; [done|].
    assert ((stop - i + step - 1) / step <= 0); [|lia].
    apply Z.lt_succ_r, Z.div_lt_upper_bound; lia.
  - destruct (i <? stop) eqn:Hi.
    + apply Z.ltb_lt in Hi.
      rewrite ceil_step by lia.
      assert (0 <= (stop - i - step + step - 1) / step)
        by (apply Z.div_pos; lia).
      rewrite Z2Nat.inj_add by lia. simpl.
      f_equal; [lia|].
      rewrite IH by lia.
      replace (stop - (i + step) + step - 1)
        with (stop - i - step + step - 1) by lia.
      rewrite <- seq_shift, map_map. apply map_ext. intros k. lia.
    + apply Z.ltb_ge in Hi.
      replace (Z.to_nat _) with 0%nat; [done|].
      assert ((stop - i + step - 1) / step <= 0); [|lia].
      apply Z.lt_succ_r, Z.div_lt_upper_bound; lia.
Qed.

(** [range(0, n, step)] lists the multiples of [step] below [n]. *)
Lemma range0_multiples n step :
  0 < step ->
  range0 n step
  = map (fun k => Z.of_nat k * step)
        (seq 0 (Z.to_nat ((n + step - 1) / step))).
Proof.
  intros Hs. unfold range0. rewrite range_up_multiples by lia.
  by rewrite Z.sub_0_r.
Qed.

Lemma multiples_below n step (k : nat) :
  0 < step -> 0 <= n ->
  (k < Z.to_nat ((n + step - 1) / step))%nat <-> Z.of_nat k * step < n.
Proof.
  intros Hs Hn.
  assert (0 <= (n + step - 1) / step) by (apply Z.div_pos; lia).
  split.
  - intros Hk.
    assert (Hq : Z.of_nat k + 1 <= (n + step - 1) / step) by lia.
    pose proof (Z.mul_div_le (n + step - 1) step Hs). nia.
  - intros Hk.
    assert (Z.of_nat k + 1 <= (n + step - 1) / step); [|lia].
    apply Z.div_le_lower_bound; lia.
Qed.

(** A slice that starts inside the list is a window. *)
Lemma slice_window {A} (l : list A) i size :
  0 <= i < len l -> 1 <= size ->
  slice l i (i + size) = window l (Z.to_nat i) (Z.to_nat size).
Proof.
  intros Hi Hs. unfold slice, window, clamp_index, len in *.
  replace (i <? 0) with false by (symmetry; apply Z.ltb_ge; lia).
  replace (i + size <? 0) with false by (symmetry; apply Z.ltb_ge; lia).
  rewrite (Z.max_r 0 (Z.min _ i)), (Z.min_r _ i) by lia.
  destruct (Z.le_gt_cases (i + size) (Z.of_nat (length l))) as [Hle|Hgt].
  - rewrite Z.max_r, Z.min_r by lia. f_equal. lia.
  - rewrite Z.max_r, Z.min_l by lia.
    rewrite !take_ge; [done|rewrite length_drop; lia..].
Qed.

Lemma window_nonempty {A} (l : list A) start size :
  (start < length l)%nat -> (1 <= size)%nat -> window l start size <> [].
Proof.
  intros Hst Hs. unfold window. intros E.
  apply (f_equal length) in E. rewrite length_take, length_drop in E.
  simpl in E. lia.
Qed.

Section Tokenizer.

Context {token : Type}.
Variable encode : str -> list token.
Variable decode : list token -> str.
Variable sent_tokenize : str -> list str.

(** *** The sliding window *)

Lemma fold_window_step (tokens : list token) size starts : forall acc,
  (forall i, i ∈ starts -> 0 <= i < len tokens) -> 1 <= size ->
  fold_left (window_step decode tokens size) starts acc
  = acc ++ map (fun i => decode (window tokens (Z.to_nat i)
                                   (Z.to_nat size))) starts.
Proof.
  induction starts as [|i starts IH]; intros acc Hin Hs; simpl.
  - by rewrite app_nil_r.
  - rewrite IH; [|intros j Hj; apply Hin; by right|done].
    unfold window_step.
    rewrite slice_window; [|apply Hin; by left|done].
    pose proof (window_nonempty tokens (Z.to_nat i) (Z.to_nat size)) as Hne.
    destruct (window tokens (Z.to_nat i) (Z.to_nat size)) eqn:E.
    + exfalso. apply Hne; [|lia|done].
      specialize (Hin i ltac:(by left)). unfold len in Hin. lia.
    + by rewrite <- app_assoc.
Qed.

(** C4, amended.  For every text that is not blank and whose token
    encoding is not empty, every size of at least 1 and every overlap
    of at least 0 (also an overlap of at least the size), the chunks of
    the token mode of the sliding window are computed with the step
    max(size - overlap, 1), which is at least 1; they are the decoded
    windows tokens[i : i + size] for the starts i = 0, step, 2 step, ...
    below the number of tokens, in this order; there is at least one,
    and none of these windows is empty, so that the last, partial, one
    is among them.  The model of the function has no iteration bound:
    it is total, as a [for] loop over a [range] is. *)
Theorem sliding_window_token_mode (text : str) (size overlap : Z) :
  truthy (strip text) = true ->
  encode text <> [] ->
  1 <= size ->
  0 <= overlap ->
  let tokens := encode text in
  let step := Z.max (size - overlap) 1 in
  1 <= step
  /\ exists count : nat,
       (forall k : nat,
          (k < count)%nat <-> Z.of_nat k * step < len tokens)
       /\ (1 <= count)%nat
       /\ chunk_text_sliding_window encode decode sent_tokenize
            text (py "token") size overlap
          = map (fun k =>
                   decode (window tokens (k * Z.to_nat step)
                             (Z.to_nat size)))
                (seq 0 count)
       /\ forall k : nat,
            (k < count)%nat ->
            window tokens (k * Z.to_nat step) (Z.to_nat size) <> [].
Proof.
  intros Htext Htok Hsize Hov tokens step.
  assert (Hstep : 1 <= step) by (unfold step; lia).
  split; [done|].
  assert (Hlen : 0 < len tokens).
  { unfold len, tokens. destruct (encode text); [done|simpl; lia]. }
  set (count := Z.to_nat ((len tokens + step - 1) / step)).
  assert (Hcount : forall k : nat,
             (k < count)%nat <-> Z.of_nat k * step < len tokens).
  { intros k. apply multiples_below; lia. }
  exists count. split; [done|].
  split; [apply (Hcount 0%nat); lia|].
  split.
  - unfold chunk_text_sliding_window. rewrite Htext. simpl negb.
    cbv iota.
    rewrite (bool_decide_eq_false_2 (py "token" = py "paragraph"))
      by done.
    rewrite (bool_decide_eq_false_2 (py "token" = py "sentence"))
      by done.
    fold tokens step. rewrite range0_multiples by lia. fold count.
    rewrite fold_window_step; [|
      intros i Hi; apply list_elem_of_fmap in Hi as (k & -> & Hk);
      apply elem_of_seq in Hk; specialize (Hcount k); lia | done].
    simpl. rewrite map_map. apply map_ext. intros k.
    do 2 f_equal. lia.
  - intros k Hk. apply window_nonempty; [|lia].
    apply Hcount in Hk. unfold len in Hk. nia.
Qed.

(** *** The token loop of the recursive algorithm *)

Lemma token_loop_body_i tokens size overlap st :
  i (token_loop_body decode tokens size overlap st)
  = i st + recursive_step size overlap.
Proof. done. Qed.

(** With a step that is not positive the start index never passes the
    first token ... *)
Lemma token_loop_stuck tokens size overlap (n : nat) st :
  recursive_step size overlap <= 0 -> i st <= 0 ->
  i (Nat.iter n (token_loop_body decode tokens size overlap) st) <= 0.
Proof.
  intros Hstep Hi. induction n as [|n IH]; simpl; [done|].
  fold (recursive_step size overlap). lia.
Qed.

(** ... and the loop runs as long as it is allowed to. *)
Lemma token_loop_diverges tokens size overlap fuel : forall st,
  tokens <> [] -> recursive_step size overlap <= 0 -> i st <= 0 ->
  token_loop decode fuel tokens size overlap st = None.
Proof.
  induction fuel as [|fuel IH]; intros st Htok Hstep Hi.
  - simpl. unfold token_loop_cond.
    replace (i st <? len tokens) with true; [done|].
    symmetry. apply Z.ltb_lt. unfold len.
    destruct tokens; [done|simpl; lia].
  - simpl. unfold token_loop_cond.
    replace (i st <? len tokens) with true.
    + apply IH; [done..|]. rewrite token_loop_body_i. lia.
    + symmetry. apply Z.ltb_lt. unfold len.
      destruct tokens; [done|simpl; lia].
Qed.

(** With a positive step the loop ends. *)
Lemma token_loop_terminates tokens size overlap fuel : forall st,
  1 <= recursive_step size overlap ->
  len tokens - i st <= Z.of_nat fuel ->
  exists st', token_loop decode fuel tokens size overlap st = Some st'.
Proof.
  induction fuel as [|fuel IH]; intros st Hstep Hf.
  - simpl. unfold token_loop_cond.
    replace (i st <? len tokens) with false; [by eexists|].
    symmetry. apply Z.ltb_ge. lia.
  - simpl. unfold token_loop_cond.
    destruct (i st <? len tokens); [|by eexists].
    apply IH; [done|]. rewrite token_loop_body_i. lia.
Qed.

Lemma recursive_token_mode fuel text size overlap :
  truthy (strip text) = true ->
  chunk_text_recursive encode decode sent_tokenize fuel text
    (py "token") size overlap
  = chunks <$> token_loop decode fuel (encode text) size overlap
                 {| i := 0; chunks := [] |}.
Proof.
  intros Htext. unfold chunk_text_recursive. rewrite Htext. simpl negb.
  cbv iota.
  rewrite (bool_decide_eq_false_2 (py "token" = py "paragraph")) by done.
  by rewrite (bool_decide_eq_false_2 (py "token" = py "sentence")) by done.
Qed.

Lemma recursive_step_positive size overlap :
  1 <= size -> overlap = 0 \/ overlap < size ->
  1 <= recursive_step size overlap.
Proof.
  intros Hs Ho. unfold recursive_step.
  destruct (overlap >? 0) eqn:E; lia.
Qed.

Lemma recursive_step_stuck size overlap :
  ~ (overlap = 0 \/ overlap < size) -> recursive_step size overlap <= 0.
Proof.
  intros Ho. unfold recursive_step.
  destruct (overlap >? 0) eqn:E; lia.
Qed.

(** C5, amended.  In token mode the recursive algorithm moves the start
    index of its window by size - overlap when overlap > 0 and by size
    when overlap = 0, and nothing bounds this step from below.  So for
    every text that is not blank and has a non-empty token encoding:
    the function returns only if overlap = 0 or overlap < size, and for
    a size of at least 1 that is also enough; when 0 < size <= overlap
    the start index never passes the first token and the loop does not
    end, however many iterations it is given. *)
Theorem recursive_token_mode_termination (text : str) (size overlap : Z) :
  truthy (strip text) = true ->
  encode text <> [] ->
  let tokens := encode text in
  let run fuel :=
    chunk_text_recursive encode decode sent_tokenize fuel text
      (py "token") size overlap in
  (forall st,
     (0 < overlap ->
      i (token_loop_body decode tokens size overlap st)
      = i st + (size - overlap))
     /\ (overlap = 0 ->
         i (token_loop_body decode tokens size overlap st)
         = i st + size))
  /\ ((exists fuel result, run fuel = Some result) ->
      overlap = 0 \/ overlap < size)
  /\ (1 <= size -> overlap = 0 \/ overlap < size ->
      exists fuel result, run fuel = Some result)
  /\ (0 < size <= overlap ->
      (forall n,
         i (Nat.iter n (token_loop_body decode tokens size overlap)
              {| i := 0; chunks := [] |}) <= 0)
      /\ forall fuel, run fuel = None).
Proof.
  intros Htext Htok tokens run.
  split; [|split; [|split]].
  - intros st. rewrite token_loop_body_i. unfold recursive_step.
    split; intros Ho.
    + by replace (overlap >? 0) with true by (symmetry; lia).
    + by replace (overlap >? 0) with false by (symmetry; lia).
  - intros (fuel & result & Hrun).
    destruct (decide (overlap = 0 \/ overlap < size)) as [|Hno];
      [done|exfalso].
    unfold run in Hrun. rewrite recursive_token_mode in Hrun by done.
    rewrite token_loop_diverges in Hrun;
      [done|done|by apply recursive_step_stuck|done].
  - intros Hsize Ho.
    destruct (token_loop_terminates tokens size overlap
                (Z.to_nat (len tokens)) {| i := 0; chunks := [] |})
      as [st' Hst'].
    { by apply recursive_step_positive. }
    { simpl. lia. }
    exists (Z.to_nat (len tokens)), (chunks st').
    unfold run. rewrite recursive_token_mode by done.
    fold tokens. by rewrite Hst'.
  - intros Hbad.
    assert (Hstep : recursive_step size overlap <= 0)
      by (apply recursive_step_stuck; lia).
    split.
    + intros n. by apply token_loop_stuck.
    + intros fuel. unfold run. rewrite recursive_token_mode by done.
      by rewrite token_loop_diverges.
Qed.

(** *** The router *)

(** Blank input gives the empty sequence, whatever the algorithm, the
    mode and the other parameters. *)
Lemma chunk_text_blank fuel text algorithm mode size overlap :
  truthy (strip text) = false ->
  chunk_text encode decode sent_tokenize fuel text algorithm mode
    size overlap = Some [].
Proof.
  intros Hblank.
  unfold chunk_text, chunk_text_sliding_window, chunk_text_recursive.
  rewrite Hblank. simpl. by case_bool_decide.
Qed.

(** C6.  [chunk_text] is claimed to return at least one chunk for every
    input text that is not blank, for both algorithms, every mode and
    every size of at least 1.  With the algorithm "Recursive" in mode
    "token" and an overlap of at least the size it returns nothing: for
    a text that is not blank and has a non-empty token encoding the
    loop is still running after any number of iterations.  (The
    sliding window bounds its step from below by 1; the recursive
    algorithm does not.) *)
Theorem chunk_text_recursive_token_no_result
    (fuel : nat) (text : str) (size overlap : Z) :
  truthy (strip text) = true ->
  encode text <> [] ->
  0 < size <= overlap ->
  chunk_text encode decode sent_tokenize fuel text
    (py "Recursive") (py "token") size overlap = None.
Proof.
  intros Htext Htok Hbad. unfold chunk_text.
  rewrite (bool_decide_eq_false_2 (py "Recursive" = py "Sliding Window"))
    by done.
  rewrite recursive_token_mode by done.
  rewrite token_loop_diverges; [done|done| |done].
  apply recursive_step_stuck. lia.
Qed.

End Tokenizer.

(** C4, as stated, fails: a text of one space has a token encoding that
    is not empty (one token per character here; the tokenizer of the
    program gives one too), and the window tokens[0 : 4] decodes to that
    space, but the sliding window returns no chunk: it returns before it
    tokenizes a blank text. *)
Lemma sliding_window_blank_text_no_window :
  let text := py " " in
  let tokens := Examples.char_tokens text in
  tokens <> []
  /\ map (fun i => Examples.char_text (slice tokens i (i + 4)))
        (range0 (len tokens) (Z.max (4 - 1) 1))
     = [py " "]
  /\ chunk_text_sliding_window Examples.char_tokens Examples.char_text
       Examples.one_sentence text (py "token") 4 1 = [].
Proof. repeat split; [discriminate|vm_compute; reflexivity..]. Qed.

(** C5, as stated, fails: for the same text the recursive algorithm
    returns, with no chunk and without entering its loop, although the
    overlap is neither 0 nor below the size. *)
Lemma recursive_blank_text_returns :
  Examples.char_tokens (py " ") <> []
  /\ 0 < 4 <= 4
  /\ ~ (4 = 0 \/ 4 < 4)
  /\ chunk_text_recursive Examples.char_tokens Examples.char_text
       Examples.one_sentence 0 (py " ") (py "token") 4 4 = Some [].
Proof.
  split; [discriminate|]. split; [lia|]. split; [lia|].
  vm_compute. reflexivity.
Qed.

End ChunkingFacts.

Module BoundaryFacts.

Import Scorer.

(** C9, as stated, fails: "bar" occurs in "foo bar", so the rule of
    partial matches applies before the rule of fuzzy matches is tried. *)
Lemma calc_match_boundary_as_stated_fails :
  ~ (calc_match (py "Acme Corp") (py "Acme Corp") = (py "exact", 100)
     /\ calc_match (py "Acme Corporation") (py "Acme Corp")
        = (py "partial", 70)
     /\ calc_match (py "foo bar") (py "bar") = (py "fuzzy", 40)
     /\ calc_match (py "xyz") (py "abc") = (py "mismatch", 0)
     /\ calc_match (py "anything") (py "") = (py "N/A", 0)).
Proof. intros (_ & _ & H & _). vm_compute in H. discriminate H. Qed.

(** C9, amended.  The boundary cases of the Scorer's match:
    match("Acme Corp", "Acme Corp") = ("exact", 100);
    match("Acme Corporation", "Acme Corp") = ("partial", 70);
    match("foo bar", "bar") = ("partial", 70);
    match("xyz", "abc") = ("mismatch", 0);
    match("anything", "") = ("N/A", 0). *)
Theorem calc_match_boundary_cases :
  calc_match (py "Acme Corp") (py "Acme Corp") = (py "exact", 100)
  /\ calc_match (py "Acme Corporation") (py "Acme Corp")
     = (py "partial", 70)
  /\ calc_match (py "foo bar") (py "bar") = (py "partial", 70)
  /\ calc_match (py "xyz") (py "abc") = (py "mismatch", 0)
  /\ calc_match (py "anything") (py "") = (py "N/A", 0).
Proof. repeat split; vm_compute; reflexivity. Qed.

(** A fuzzy match needs a word of the master inside the extracted value
    while neither value contains the other. *)
Example calc_match_fuzzy :
  calc_match (py "foo quux") (py "bar foo") = (py "fuzzy", 40).
Proof. vm_compute. reflexivity. Qed.

(** The boundary cases of the hallucination score. *)
Example hallucination_boundary :
  calculate_hallucination_score (py "N/A") (py "2024-01-01")
    (py "Invoice Date: 2024-01-15") = 0
  /\ calculate_hallucination_score (py "2024-01-01") (py "2024-01-01")
       (py "Invoice Date: 2024-01-15") = 0
  /\ calculate_hallucination_score (py "2024-01-15") (py "2024-01-01")
       (py "Invoice Date: 2024-01-15") = 10
  /\ calculate_hallucination_score (py "alpha beta gamma") (py "x")
       (py "beta gamma delta") = 40.
Proof. repeat split; vm_compute; reflexivity. Qed.

End BoundaryFacts.

Module IndexPersistenceFacts.

Import Posix IndexPersistence IndexPersistenceSpec.

Lemma hex_digit_hex n : (n < 16)%N -> Sha256.hex_digit n ∈ hex_digits.
Proof.
  intros Hn. unfold Sha256.hex_digit, hex_digits.
  assert (Hk : (N.to_nat n < 16)%nat) by lia.
  revert Hk. generalize (N.to_nat n). intros k Hk.
  do 16 (destruct k as [|k];
         [apply (bool_decide_unpack _); vm_compute; exact I|]).
  lia.
Qed.

Lemma hex_word_length w : length (Sha256.hex_word w) = 8%nat.
Proof. done. Qed.

Lemma hex_word_hex w : Forall (fun c => c ∈ hex_digits) (Sha256.hex_word w).
Proof.
  unfold Sha256.hex_word. apply Forall_fmap, Forall_forall.
  intros k _. apply hex_digit_hex. by apply N.mod_lt.
Qed.

Lemma hexdigest_length message : length (Sha256.hexdigest message) = 64%nat.
Proof.
  unfold Sha256.hexdigest.
  destruct (Sha256.digest message) as [[[[[[[a b] c] d] e] f] g] h].
  by rewrite !length_app, !hex_word_length.
Qed.

Lemma hexdigest_hex message :
  Forall (fun c => c ∈ hex_digits) (Sha256.hexdigest message).
Proof.
  unfold Sha256.hexdigest.
  destruct (Sha256.digest message) as [[[[[[[a b] c] d] e] f] g] h].
  rewrite !Forall_app. repeat split; apply hex_word_hex.
Qed.

(** The document hash has 16 hexadecimal characters. *)
Lemma get_document_hash_length text : length (get_document_hash text) = 16%nat.
Proof.
  unfold get_document_hash. rewrite length_take, hexdigest_length. done.
Qed.

Lemma get_document_hash_hex text :
  Forall (fun c => c ∈ hex_digits) (get_document_hash text).
Proof. unfold get_document_hash. apply Forall_take, hexdigest_hex. Qed.

(** The hash of "abc", as [hashlib] gives it. *)
Example get_document_hash_abc :
  get_document_hash (py "abc") = py "ba7816bf8f01cfea".
Proof. vm_compute. reflexivity. Qed.

(** A file name that starts with a hexadecimal character is joined to a
    directory by putting it after the directory, with a separator in
    between unless the directory already ends with one. *)
Lemma path_join_name dir c name :
  c ∈ hex_digits ->
  path_join dir (c :: name)
  = dir ++ (if negb (truthy dir) || endswith sep dir then [] else sep)
        ++ c :: name.
Proof.
  intros Hc. unfold path_join.
  assert (startswith sep (c :: name) = false) as ->.
  { simpl. rewrite andb_true_r. apply bool_decide_eq_false_2.
    intros <-. revert Hc. apply (proj1 (bool_decide_eq_false _)).
    vm_compute. reflexivity. }
  by destruct (negb (truthy dir) || endswith sep dir).
Qed.

Lemma path_join_inj dir c name name' :
  c ∈ hex_digits ->
  path_join dir (c :: name) = path_join dir (c :: name') -> name = name'.
Proof.
  intros Hc. rewrite !path_join_name by done.
  intros H. apply app_inv_head, app_inv_head in H. by injection H.
Qed.


Section Store.

Context {faiss_index config : Type}.
Variable index_d : faiss_index -> Z.
Variable index_ntotal : faiss_index -> Z.

(** C10, amended.  For every saved document, [save_index] writes the
    binary index artifact to the file named [{document_hash}.faiss] and
    the JSON metadata sidecar to the file named
    [{document_hash}_metadata.json], both inside the index directory
    (which it creates), where [document_hash] is the document hash of
    16 hexadecimal characters, which it returns; it writes nothing
    else. *)
Theorem save_index_files (index : faiss_index) (chunks : list str)
    (document_text pdf_filename : str) (chunking_config : config)
    (base_dir now : str) (fs : filesystem) :
  let doc_hash := get_document_hash document_text in
  let index_dir := abspath (cwd fs) base_dir in
  let index_path := path_join index_dir (doc_hash ++ py ".faiss") in
  let metadata_path :=
    path_join index_dir (doc_hash ++ py "_metadata.json") in
  let saved :=
    save_index index_d index_ntotal index chunks document_text
      pdf_filename chunking_config base_dir now fs in
  snd saved = doc_hash
  /\ length doc_hash = 16%nat
  /\ Forall (fun c => c ∈ hex_digits) doc_hash
  /\ index_dir ∈ dirs (fst saved)
  /\ files (fst saved) !! index_path = Some (IndexFile index)
  /\ (exists m,
        files (fst saved) !! metadata_path = Some (JsonFile m)
        /\ document_hash m = doc_hash
        /\ IndexPersistence.chunks m = chunks
        /\ num_chunks m = len chunks)
  /\ forall path,
       path <> index_path -> path <> metadata_path ->
       files (fst saved) !! path = files fs !! path.
Proof.
  intros doc_hash index_dir index_path metadata_path saved.
  pose proof (get_document_hash_length document_text) as Hlen.
  pose proof (get_document_hash_hex document_text) as Hhex.
  fold doc_hash in Hlen, Hhex.
  assert (Hne : index_path <> metadata_path).
  { unfold index_path, metadata_path.
    destruct doc_hash as [|c rest]; [done|].
    apply Forall_cons in Hhex as [Hc _].
    intros H. apply path_join_inj in H; [|done].
    by apply app_inv_head in H. }
  unfold saved, save_index, get_index_path, get_index_directory,
    write, makedirs. simpl.
  fold doc_hash index_dir index_path metadata_path.
  split; [done|]. split; [done|]. split; [done|].
  split; [set_solver|].
  split; [by rewrite lookup_insert_ne, lookup_insert_eq|].
  split.
  - eexists. by rewrite lookup_insert_eq.
  - intros path H1 H2. by rewrite !lookup_insert_ne.
Qed.

End Store.

(** C10, as stated, fails: saving the document "abc" leaves no file named
    after its hash with the extension [.index]; the index is in the file
    with the extension [.faiss]. *)
Lemma save_index_no_dot_index :
  let fs := {| cwd := py "/srv/app"; dirs := ∅; files := ∅ |} in
  let saved :=
    save_index (fun index : Z * Z => fst index) (fun index => snd index)
      (768, 1) [py "abc"] (py "abc") (py "abc.pdf") tt (py "indexes")
      (py "2025-01-01T00:00:00") fs in
  snd saved = py "ba7816bf8f01cfea"
  /\ files (fst saved) !! py "/srv/app/indexes/ba7816bf8f01cfea.index"
     = None
  /\ files (fst saved) !! py "/srv/app/indexes/ba7816bf8f01cfea.faiss"
     = Some (IndexFile (768, 1)).
Proof. vm_compute. repeat split; reflexivity. Qed.

End IndexPersistenceFacts.

(** *** Retrieval *)

Module RetrievalFacts.

Import Extraction Retrieval RetrievalSpec.

(** Clamping to [0, 1] from above first or from below first gives the
    same number. *)
Lemma clamp_swap (x : Q) : Qmax 0 (Qmin 1 x) = Qmin 1 (Qmax 0 x).
Proof.
  unfold Qmax, Qmin, GenericMinMax.gmax, GenericMinMax.gmin.
  destruct (1 ?= x)%Q eqn:H1; destruct (0 ?= x)%Q eqn:H0; simpl;
    rewrite ?H1, ?H0; try reflexivity.
  all: repeat match goal with
              | H : (_ ?= _)%Q = Eq |- _ => rewrite <- Qeq_alt in H
              | H : (_ ?= _)%Q = Lt |- _ => rewrite <- Qlt_alt in H
              | H : (_ ?= _)%Q = Gt |- _ => rewrite <- Qgt_alt in H
              end.
  all: lra.
Qed.

(** A label that is a row of [chunks] reads that row. *)
Lemma index_at_row {A} (l : list A) (idx : Z) (x : A) :
  0 <= idx -> l !! Z.to_nat idx = Some x -> index_at l idx = Return x.
Proof.
  intros Hidx Hx. unfold index_at.
  pose proof (lookup_lt_Some _ _ _ Hx) as Hlt.
  replace (idx <? 0) with false by (symmetry; apply Z.ltb_ge; lia).
  replace (0 <=? idx) with true by (symmetry; apply Z.leb_le; lia).
  replace (idx <? len l) with true
    by (symmetry; apply Z.ltb_lt; unfold len; lia).
  simpl. by rewrite Hx.
Qed.

Section Retrieve.

Variable embed_query : str -> vector.
Variable search : vector -> Z -> list Q * list Z.
Variable round2 : Q -> Q.

(** The loop keeps the pairs of the search in their order: one hit for
    each, with the distance of the pair, the chunk its label names and
    the confidence computed from that distance. *)
Lemma collect_rows (chunks : list str) (pairs : list (Q * Z)) :
  forall results,
  Forall (fun p => 0 <= snd p
                   /\ is_Some (chunks !! Z.to_nat (snd p))) pairs ->
  exists hits,
    collect round2 chunks pairs results = Return (results ++ hits)
    /\ Forall2 (fun hit p =>
                  distance hit = fst p
                  /\ chunks !! Z.to_nat (snd p) = Some (chunk hit)
                  /\ chunk_confidence hit
                     = round2 (Qmax 0 (Qmin 1 (1 - fst p / 2)) * 100)%Q)
               hits pairs.
Proof.
  induction pairs as [|[dist idx] pairs IH]; intros results Hrows.
  - exists []. simpl. by rewrite app_nil_r.
  - apply Forall_cons in Hrows as [[Hidx [c Hc]] Hrows]. simpl in *.
    rewrite (index_at_row _ _ _ Hidx Hc). simpl.
    destruct (IH (results ++
                    [ {| chunk := c; distance := dist;
                         chunk_confidence :=
                           round2 (Qmax 0 (Qmin 1 (1 - dist / 2)) * 100)%Q
                      |} ]) Hrows) as (hits & -> & Hhits).
    eexists (_ :: hits). rewrite <- app_assoc. split; [reflexivity|].
    by constructor.
Qed.

(** C3.  For every query and top_k, with the index search reporting
    what a flat L2 index over the embeddings of the chunks reports (for
    every hit the label of a row and, as its distance, the square of
    the L2 distance d between the query embedding and that row, the
    nearest first), [retrieve] returns its hits in that order, best
    match first, the distances ascending, and each hit carries the
    chunk of its row and the confidence
    round(min(1, max(0, 1 - d^2 / 2)) * 100, 2).  Numbers are exact
    here, and [round] is left open. *)
Theorem retrieve_hits (xb : list vector) (chunks : list str)
    (query : str) (top_k : Z) :
  length xb = length chunks ->
  flat_l2_result xb (embed_query query)
    (fst (search (embed_query query) top_k))
    (snd (search (embed_query query) top_k)) ->
  exists hits,
    retrieve embed_query search round2 chunks query top_k = Return hits
    /\ map distance hits = fst (search (embed_query query) top_k)
    /\ StronglySorted Qle (map distance hits)
    /\ Forall2 (hit_for round2 xb chunks (embed_query query))
               hits (snd (search (embed_query query) top_k)).
Proof.
  intros Hlen [Hrows Hsorted]. unfold retrieve.
  destruct (search (embed_query query) top_k) as [D0 I0]. simpl in *.
  destruct (collect_rows chunks (zip D0 I0) []) as (hits & Hrun & Hhits).
  { clear Hsorted. induction Hrows as [|dist idx D0 I0 Hrow _ IH];
      simpl; [constructor|].
    constructor; [|exact IH]. simpl.
    destruct Hrow as (Hidx & x & Hx & _). split; [done|].
    apply lookup_lt_is_Some. apply lookup_lt_Some in Hx. lia. }
  exists hits. split; [exact Hrun|].
  assert (Hdist : map distance hits = D0).
  { clear Hrun Hsorted. revert hits Hhits.
    induction Hrows as [|dist idx D0 I0 Hrow _ IH]; intros hits Hhits;
      simpl in Hhits.
    - by inversion Hhits.
    - inversion Hhits as [|hit p hits' ps (Hd & _) Hrest]; subst.
      simpl in *. by rewrite Hd, (IH _ Hrest). }
  split; [exact Hdist|]. split; [by rewrite Hdist|].
  clear Hrun Hsorted Hdist. revert hits Hhits.
  induction Hrows as [|dist idx D0 I0 Hrow _ IH]; intros hits Hhits;
    simpl in Hhits.
  - inversion Hhits. constructor.
  - inversion Hhits as [|hit p hits' ps (Hd & Hc & Hconf) Hrest]; subst.
    simpl in *. constructor; [|by apply IH].
    destruct Hrow as (Hidx & x & Hx & Hsq).
    exists x. split; [done|]. split; [done|].
    split; [by rewrite Hd|].
    by rewrite Hconf, clamp_swap, Hsq.
Qed.

End Retrieve.

(** The two nearest of three chunks. *)
Lemma retrieve_hits_witness :
  length Examples.three_rows = length Examples.three_chunks
  /\ flat_l2_result Examples.three_rows
       (Examples.unit_query (py "What is the invoice date?"))
       (fst (Examples.table_search
               (Examples.unit_query (py "What is the invoice date?")) 2))
       (snd (Examples.table_search
               (Examples.unit_query (py "What is the invoice date?")) 2))
  /\ exists hits,
       retrieve Examples.unit_query Examples.table_search (fun x => x)
         Examples.three_chunks (py "What is the invoice date?") 2
       = Return hits
       /\ map distance hits
          = fst (Examples.table_search
                   (Examples.unit_query (py "What is the invoice date?"))
                   2)
       /\ StronglySorted Qle (map distance hits)
       /\ Forall2 (hit_for (fun x => x) Examples.three_rows
                     Examples.three_chunks
                     (Examples.unit_query
                        (py "What is the invoice date?")))
                  hits
                  (snd (Examples.table_search
                          (Examples.unit_query
                             (py "What is the invoice date?")) 2)).
Proof.
  assert (Hresult :
    flat_l2_result Examples.three_rows
      (Examples.unit_query (py "What is the invoice date?"))
      (fst (Examples.table_search
              (Examples.unit_query (py "What is the invoice date?")) 2))
      (snd (Examples.table_search
              (Examples.unit_query (py "What is the invoice date?")) 2))).
  { unfold flat_l2_result.
    cbv [Examples.table_search fst snd].
    change (Z.to_nat 2) with 2%nat. cbn [take map].
    split.
    - apply List.Forall2_cons.
      { split; [lia|]. eexists. split; reflexivity. }
      apply List.Forall2_cons; [|apply List.Forall2_nil].
      split; [lia|]. eexists. split; reflexivity.
    - apply SSorted_cons.
      + apply SSorted_cons; [apply SSorted_nil|apply List.Forall_nil].
      + apply List.Forall_cons; [|apply List.Forall_nil].
        vm_compute. discriminate. }
  split; [reflexivity|]. split; [exact Hresult|].
  apply (retrieve_hits Examples.unit_query Examples.table_search
           (fun x => x) Examples.three_rows Examples.three_chunks
           (py "What is the invoice date?") 2);
    [reflexivity|exact Hresult].
Defined.

(** The hits of the example: the first chunk at distance 0 with
    confidence 100, then the third at squared distance 4/5 with
    confidence 60. *)
Example retrieve_two_of_three :
  match retrieve Examples.unit_query Examples.table_search Qred
          Examples.three_chunks (py "What is the invoice date?") 2 with
  | Return hits =>
      map (fun hit => (Examples.show (chunk hit), Qred (distance hit),
                       chunk_confidence hit)) hits
      = [ ("Invoice Date: 2024-01-15"%string, 0%Q, 100%Q);
          ("Total: 100"%string, (4 # 5)%Q, 60%Q) ]
  | Raise _ => False
  end.
Proof. vm_compute. reflexivity. Qed.

End RetrievalFacts.

(** *** The models at work *)

Module Doctests.

Import Examples.

Example str_methods :
  map show (split_on blank_line
              (py "a" ++ blank_line ++ [ascii_of_N 10] ++ py "b"))
  = [ "a"%string; show ([ascii_of_N 10] ++ py "b") ]
  /\ map show (split_on (py "aa") (py "aaa")) = [ ""; "a" ]%string
  /\ map show (split_ws (py "  foo  bar ")) = [ "foo"; "bar" ]%string
  /\ show (strip (py "  a b  ")) = "a b"%string
  /\ show (lower (py "AbC/Z")) = "abc/z"%string
  /\ contains (py "") (py "abc") = true.
Proof. repeat split; vm_compute; reflexivity. Qed.

Example slices_and_ranges :
  slice [1; 2; 3; 4; 5] (-2) 10 = [4; 5]
  /\ slice [1; 2; 3; 4; 5] 1 3 = [2; 3]
  /\ slice [1; 2; 3; 4; 5] 4 2 = []
  /\ slice [1; 2; 3; 4; 5] (-7) 2 = [1; 2]
  /\ range0 10 3 = [0; 3; 6; 9]
  /\ range0 0 1 = [].
Proof. repeat split; vm_compute; reflexivity. Qed.

Example paths :
  show (Posix.normpath (py "/a//b/../c/.")) = "/a/c"%string
  /\ show (Posix.normpath (py "../x")) = "../x"%string
  /\ show (Posix.normpath (py "//a")) = "//a"%string
  /\ show (Posix.normpath (py "///a")) = "/a"%string
  /\ show (Posix.abspath (py "/srv/app") (py "indexes"))
     = "/srv/app/indexes"%string
  /\ show (Posix.path_join (py "/x/") (py "y")) = "/x/y"%string
  /\ show (Posix.path_join (py "/x") (py "/y")) = "/y"%string.
Proof. repeat split; vm_compute; reflexivity. Qed.

(** The six combinations of algorithm and mode. *)
Example chunk_text_modes :
  let chunk_text := Chunking.chunk_text char_tokens char_text in
  (map show <$>
     chunk_text one_sentence 0%nat
       (py "First para." ++ blank_line ++ [ascii_of_N 10]
          ++ py " Second one. " ++ blank_line)
       (py "Sliding Window") (py "paragraph") 4 1)
  = Some [ "First para."; "Second one." ]%string
  /\ (map show <$>
        chunk_text bar_sentences 0%nat (py "one two|three|four five six")
          (py "Sliding Window") (py "sentence") 3 1)
     = Some [ "one two three"; "four five six" ]%string
  /\ (map show <$>
        chunk_text one_sentence 0%nat (py "hello world")
          (py "Sliding Window") (py "token") 4 1)
     = Some [ "hell"; "lo w"; "worl"; "ld" ]%string
  /\ (map show <$>
        chunk_text one_sentence 0%nat
          (py "one two three. four five six seven")
          (py "Recursive") (py "paragraph") 9 1)
     = Some [ "one two three. four five six seven" ]%string
  /\ (map show <$>
        chunk_text one_sentence 0%nat (py "one two. to be")
          (py "Recursive") (py "paragraph") 3 1)
     = Some [ "one"; "two"; "to"; "be" ]%string
  /\ (map show <$>
        chunk_text bar_sentences 0%nat
          (py "one two|three|four five six|x")
          (py "Recursive") (py "sentence") 3 1)
     = Some [ "one two three"; "four five six"; "x" ]%string
  /\ (map show <$>
        chunk_text one_sentence 4%nat (py "hello world")
          (py "Recursive") (py "token") 4 1)
     = Some [ "hell"; "lo w"; "worl"; "ld" ]%string.
Proof. repeat split; vm_compute; reflexivity. Qed.

(** Three fields through [rag_extraction]: the model fails for the second
    and the retriever for the third. *)
Example rag_extraction_three_fields :
  let '(returned, tokens_used, calls) :=
    FlowComparison.rag_extraction char_tokens flaky_retriever fenced_model
      toy_loads toy_str toy_float (fun x => x) false three_fields 2%Q in
  match returned with
  | Return records =>
      map (fun r => (show (FlowComparison.field_name r),
                     show (FlowComparison.value r),
                     FlowComparison.confidence r,
                     FlowComparison.chunks_used r,
                     show <$> FlowComparison.error r)) records
      = [ ("Invoice Date", "2024-01-15", 95%Q, Some 1, None);
          ("Field 2", "ERROR", 0%Q, None, Some "429 RESOURCE_EXHAUSTED");
          ("Field 3", "ERROR", 0%Q, None, Some "index unavailable")
        ]%string
  | Raise _ => False
  end
  /\ calls
     = [ Call (py "retriever") 0; Call (py "generate_content") 0;
         Sleep 2%Q;
         Call (py "retriever") 1; Call (py "generate_content") 1;
         Sleep (2 * 2)%Q;
         Call (py "retriever") 2 ]
  /\ TokenCounter.llm_calls tokens_used = 1
  /\ TokenCounter.embedding_calls tokens_used = 2.
Proof. vm_compute. repeat split; reflexivity. Qed.

(** The same fields through [extract_all_fields]. *)
Example extract_all_fields_three_fields :
  let '(returned, calls) :=
    Extraction.extract_all_fields flaky_retriever
      (fun i query context => Return (context, 80%Q, query))
      (fun x => x) false three_fields 2%Q in
  match returned with
  | Return records =>
      map (fun r => (show (Extraction.field_name r),
                     show (Extraction.value r),
                     Extraction.confidence r)) records
      = [ ("Invoice Date", "Invoice Date: 2024-01-15", 80%Q);
          ("Field 2", "Invoice Date: 2024-01-15", 80%Q);
          ("Field 3", "ERROR", 0%Q) ]%string
  | Raise _ => False
  end
  /\ sleeps calls = [ 2%Q; 2%Q ].
Proof. vm_compute. repeat split; reflexivity. Qed.

End Doctests.

Module Witnesses.

Import Chunking ChunkingSpec Examples.

(** The sliding window over the eleven characters of "hello world", with
    size 4 and overlap 5. *)
Lemma sliding_window_token_mode_witness :
  truthy (strip (py "hello world")) = true
  /\ char_tokens (py "hello world") <> []
  /\ 1 <= 4
  /\ 0 <= 5
  /\ (let tokens := char_tokens (py "hello world") in
      let step := Z.max (4 - 5) 1 in
      1 <= step
      /\ exists count : nat,
           (forall k : nat,
              (k < count)%nat <-> Z.of_nat k * step < len tokens)
           /\ (1 <= count)%nat
           /\ chunk_text_sliding_window char_tokens char_text one_sentence
                (py "hello world") (py "token") 4 5
              = map (fun k =>
                       char_text (window tokens (k * Z.to_nat step)
                                    (Z.to_nat 4)))
                    (seq 0 count)
           /\ forall k : nat,
                (k < count)%nat ->
                window tokens (k * Z.to_nat step) (Z.to_nat 4) <> []).
Proof.
  split; [reflexivity|]. split; [discriminate|].
  split; [lia|]. split; [lia|].
  apply (ChunkingFacts.sliding_window_token_mode
           char_tokens char_text one_sentence (py "hello world") 4 5);
    [reflexivity|discriminate|lia|lia].
Defined.

(** The recursive algorithm on "hello world" with size 4 and overlap 4. *)
Lemma recursive_token_mode_termination_witness :
  truthy (strip (py "hello world")) = true
  /\ char_tokens (py "hello world") <> []
  /\ (let tokens := char_tokens (py "hello world") in
      let run fuel :=
        chunk_text_recursive char_tokens char_text one_sentence fuel
          (py "hello world") (py "token") 4 4 in
      (forall st,
         (0 < 4 ->
          i (token_loop_body char_text tokens 4 4 st) = i st + (4 - 4))
         /\ (4 = 0 ->
             i (token_loop_body char_text tokens 4 4 st) = i st + 4))
      /\ ((exists fuel result, run fuel = Some result) -> 4 = 0 \/ 4 < 4)
      /\ (1 <= 4 -> 4 = 0 \/ 4 < 4 ->
          exists fuel result, run fuel = Some result)
      /\ (0 < 4 <= 4 ->
          (forall n,
             i (Nat.iter n (token_loop_body char_text tokens 4 4)
                  {| i := 0; chunks := [] |}) <= 0)
          /\ forall fuel, run fuel = None)).
Proof.
  split; [reflexivity|]. split; [discriminate|].
  apply (ChunkingFacts.recursive_token_mode_termination
           char_tokens char_text one_sentence (py "hello world") 4 4);
    [reflexivity|discriminate].
Defined.

(** [chunk_text("hello world", "Recursive", "token", 50, 50)], given a
    thousand iterations. *)
Lemma chunk_text_recursive_token_no_result_witness :
  truthy (strip (py "hello world")) = true
  /\ char_tokens (py "hello world") <> []
  /\ 0 < 50 <= 50
  /\ chunk_text char_tokens char_text one_sentence 1000
       (py "hello world") (py "Recursive") (py "token") 50 50 = None.
Proof.
  split; [reflexivity|]. split; [discriminate|]. split; [lia|].
  apply (ChunkingFacts.chunk_text_recursive_token_no_result
           char_tokens char_text one_sentence 1000 (py "hello world")
           50 50);
    [reflexivity|discriminate|lia].
Defined.

Import Benchmarking BenchmarkingSpec.

(** Three runs with a delay of two seconds, the second of which fails. *)
Lemma run_benchmark_test_complete_witness :
  1 <= 3
  /\ exists (records : list run_record) (calls : list event),
       run_benchmark_test flaky_extractor (fun _ => 0.25%Q) (fun x => x)
         false (py "What is the invoice date?") 3 2%Q
       = (Return records, calls)
       /\ len records = 3
       /\ map run records = map (fun i => i + 1) (indices 3)
       /\ (forall i e, 0 <= i < 3 ->
             flaky_extractor i (py "What is the invoice date?") = Raise e ->
             records !! Z.to_nat i = Some (error_record i e))
       /\ pacing (py "extractor") calls
          = paced (py "extractor") 3
              (fun i =>
                 pause_for 2%Q
                   (run_raised flaky_extractor
                      (py "What is the invoice date?") i))
       /\ ((forall i, 0 <= i < 3 ->
              run_raised flaky_extractor
                (py "What is the invoice date?") i = false) ->
           sleeps calls = repeat 2%Q (Z.to_nat (3 - 1))).
Proof.
  split; [lia|].
  apply (BenchmarkingFacts.run_benchmark_test_complete
           flaky_extractor (fun _ => 0.25%Q) (fun x => x) false
           (py "What is the invoice date?") 3 2%Q).
  lia.
Defined.

(** The three runs of the example: the calls and the pauses. *)
Example run_benchmark_test_flaky :
  run_benchmark_test flaky_extractor (fun _ => 0.25%Q) (fun x => x)
    false (py "q") 3 2%Q
  = (Return
       [ {| run := 1; value := py "2024-01-15"; confidence := 90%Q;
            time_ms := (0.25 * 1000)%Q; num_chunks := 1; error := None |};
         error_record 1 (py "timed out");
         {| run := 3; value := py "2024-01-15"; confidence := 90%Q;
            time_ms := (0.25 * 1000)%Q; num_chunks := 1; error := None |} ],
     [ Call (py "extractor") 0; Sleep 2%Q;
       Call (py "extractor") 1; Sleep (2 * 2)%Q;
       Call (py "extractor") 2 ]).
Proof. reflexivity. Qed.

End Witnesses.
